(** * Aadhaar data pipeline: ingestion and aggregation

    A shallow embedding of [src/backend.py] (the loader, the numeric fill
    loop and the four analytical queries), of the pages of
    [src/frontend.py] and of the loader of [src/app.py], together with
    the properties of the pipeline that the specification states.

    Conventions.
    - Column names and text cells are [string]s of single-byte characters;
      case mapping and white space are the ASCII ones, and the statements
      about names that depend on them are made for names of ASCII
      characters.
    - A frame carries the type of every column, as the library determines
      it when a file is read and when frames are merged; the fill loop
      and the typed reading of a frame go by it.
    - The queries are embedded for count columns of type [int64]: a [Z]
      with the wrap-around of the machine addition written out.  The sums
      of a [float64] column are the library's floating-point sums and are
      left out.
    - A Python exception is an [Error]; [try]/[except] is a [match] on it. *)

From Stdlib Require Import ZArith List Bool Ascii String Lia Permutation Sorted.
From Stdlib Require Import SpecFloat OrderedTypeEx.
Import ListNotations.

Open Scope string_scope.
Open Scope list_scope.

(** ** Exceptions *)

Inductive exn : Type :=
  | KeyError (column : string)
  | ValueError
  | InvalidIndexError.

Inductive result (A : Type) : Type :=
  | Ok (a : A)
  | Error (e : exn).

Arguments Ok {A} a.
Arguments Error {A} e.

Definition bind {A B : Type} (r : result A) (k : A -> result B) : result B :=
  match r with
  | Ok a => k a
  | Error e => Error e
  end.

Notation "x <- r ;; k" := (bind r (fun x => k))
  (at level 61, r at next level, right associativity).

(** ** Schema normalizer: column names

    [df.columns.astype(str).str.strip().str.lower().str.replace(' ', '_')] *)

Module Normalizer.

(** White space as [str.strip] sees it, on one-byte characters: tab, line
    feed, vertical tab, form feed, carriage return, the four separators
    0x1c-0x1f and the space. *)
Definition is_space (c : ascii) : bool :=
  let n := nat_of_ascii c in
  ((9 <=? n) && (n <=? 13) || (28 <=? n) && (n <=? 32))%nat.

Definition is_upper (c : ascii) : bool :=
  let n := nat_of_ascii c in ((65 <=? n) && (n <=? 90))%nat.

Definition lower_char (c : ascii) : ascii :=
  if is_upper c then ascii_of_nat (nat_of_ascii c + 32) else c.

(** [str.replace(' ', '_')] touches the space character only. *)
Definition replace_char (c : ascii) : ascii :=
  if Ascii.eqb c " " then "_"%char else c.

Fixpoint smap (f : ascii -> ascii) (s : string) : string :=
  match s with
  | EmptyString => EmptyString
  | String c s' => String (f c) (smap f s')
  end.

Fixpoint lstrip (s : string) : string :=
  match s with
  | EmptyString => EmptyString
  | String c s' => if is_space c then lstrip s' else s
  end.

Definition is_empty (s : string) : bool :=
  match s with EmptyString => true | String _ _ => false end.

Fixpoint rstrip (s : string) : string :=
  match s with
  | EmptyString => EmptyString
  | String c s' =>
      let r := rstrip s' in
      if is_space c && is_empty r then EmptyString else String c r
  end.

Definition strip (s : string) : string := rstrip (lstrip s).
Definition lower (s : string) : string := smap lower_char s.
Definition replace_space (s : string) : string := smap replace_char s.

Definition clean_name (raw : string) : string :=
  replace_space (lower (strip raw)).





(** The first character of a string is not white space. *)
Definition head_ok (s : string) : Prop :=
  match s with
  | EmptyString => True
  | String c _ => is_space c = false
  end.

(** The two character maps of [clean_name] as one. *)
Definition clean_char (c : ascii) : ascii := replace_char (lower_char c).

(** Every character of a string passes a test. *)
Fixpoint all_chars (p : ascii -> bool) (s : string) : bool :=
  match s with
  | EmptyString => true
  | String c s' => p c && all_chars p s'
  end.


(** The last character of a string is not white space. *)
Fixpoint last_ok (s : string) : Prop :=
  match s with
  | EmptyString => True
  | String c EmptyString => is_space c = false
  | String _ s' => last_ok s'
  end.

End Normalizer.

(** ** Calendar dates and the fixed format [%d-%m-%Y]

    [pd.to_datetime(column, format='%d-%m-%Y', errors='coerce')] matches
    each text against the pattern of the format,

      day   3[0-1] | [1-2]\d | 0[1-9] | [1-9] | ' '[1-9]
      month 1[0-2] | 0[1-9] | [1-9]
      year  \d\d\d\d

    separated by '-', the whole text being consumed, and then builds the
    calendar date, which fails when the day does not exist in that month.
    With [errors='coerce'] every failure yields [NaT].  The range limit of
    the library's nanosecond time stamps is not part of this model. *)

Module Dates.

Local Open Scope Z_scope.

Record date : Type := mkDate { year : Z; month : Z; day : Z }.

Definition is_digit (c : ascii) : bool :=
  let n := nat_of_ascii c in ((48 <=? n) && (n <=? 57))%nat.

Definition digit (c : ascii) : Z := Z.of_nat (nat_of_ascii c) - 48.

Definition in_range (lo hi : nat) (c : ascii) : bool :=
  let n := nat_of_ascii c in ((lo <=? n) && (n <=? hi))%nat.

(** The text before the first '-' and, when there is one, the text after. *)
Fixpoint split_dash (s : string) : string * option string :=
  match s with
  | EmptyString => (EmptyString, None)
  | String c s' =>
      if Ascii.eqb c "-" then (EmptyString, Some s')
      else let (tok, rest) := split_dash s' in (String c tok, rest)
  end.

Definition day_token (tok : string) : option Z :=
  match tok with
  | String c EmptyString =>
      if in_range 49 57 c then Some (digit c) else None
  | String c1 (String c2 EmptyString) =>
      if Ascii.eqb c1 "3" && in_range 48 49 c2 then Some (30 + digit c2)
      else if in_range 49 50 c1 && is_digit c2 then Some (10 * digit c1 + digit c2)
      else if Ascii.eqb c1 "0" && in_range 49 57 c2 then Some (digit c2)
      else if Ascii.eqb c1 " " && in_range 49 57 c2 then Some (digit c2)
      else None
  | _ => None
  end.

Definition month_token (tok : string) : option Z :=
  match tok with
  | String c EmptyString =>
      if in_range 49 57 c then Some (digit c) else None
  | String c1 (String c2 EmptyString) =>
      if Ascii.eqb c1 "1" && in_range 48 50 c2 then Some (10 + digit c2)
      else if Ascii.eqb c1 "0" && in_range 49 57 c2 then Some (digit c2)
      else None
  | _ => None
  end.

Definition year_token (tok : string) : option Z :=
  match tok with
  | String a (String b (String c (String d EmptyString))) =>
      if is_digit a && is_digit b && is_digit c && is_digit d
      then Some (1000 * digit a + 100 * digit b + 10 * digit c + digit d)
      else None
  | _ => None
  end.

Definition is_leap (y : Z) : bool :=
  ((y mod 4 =? 0) && negb (y mod 100 =? 0) || (y mod 400 =? 0))%Z.

Definition days_in_month (y m : Z) : Z :=
  (if m =? 2 then (if is_leap y then 29 else 28)
   else if (m =? 4) || (m =? 6) || (m =? 9) || (m =? 11) then 30
   else 31)%Z.

(** [datetime.date(y, m, d)]: [None] is its [ValueError]. *)
Definition make_date (y m d : Z) : option date :=
  if ((1 <=? y) && (1 <=? m) && (m <=? 12) && (1 <=? d) && (d <=? days_in_month y m))%Z
  then Some (mkDate y m d) else None.

Definition parse_date (s : string) : option date :=
  match split_dash s with
  | (dtok, Some rest) =>
      match split_dash rest with
      | (mtok, Some ytok) =>
          match day_token dtok, month_token mtok, year_token ytok with
          | Some d, Some m, Some y => make_date y m d
          | _, _, _ => None
          end
      | (_, None) => None
      end
  | (_, None) => None
  end.

Definition compare (a b : date) : comparison :=
  match Z.compare (year a) (year b) with
  | Eq => match Z.compare (month a) (month b) with
          | Eq => Z.compare (day a) (day b)
          | o => o
          end
  | o => o
  end.

(** [strftime('%Y-%m-%d')] on a date the parser produced. *)
Definition digit_char (z : Z) : ascii := ascii_of_nat (48 + Z.to_nat (z mod 10))%nat.

Definition two_digits (z : Z) : string :=
  String (digit_char (z / 10)) (String (digit_char z) EmptyString).

Definition four_digits (z : Z) : string :=
  String (digit_char (z / 1000)) (String (digit_char (z / 100))
    (String (digit_char (z / 10)) (String (digit_char z) EmptyString))).

Definition strftime (d : date) : string :=
  four_digits (year d) ++ "-" ++ two_digits (month d) ++ "-" ++ two_digits (day d).

(** A day of the calendar, in the years that four digits write. *)
Definition valid (d : date) : Prop :=
  1 <= year d <= 9999 /\ 1 <= month d <= 12 /\
  1 <= day d <= days_in_month (year d) (month d).

(** The decimal digit [n] as a character. *)
Definition char_of_digit (n : nat) : ascii := ascii_of_nat (48 + n).

(** A text of ten characters, four digits, a dash, two digits, a dash and
    two digits, whose digits write the year, the month and the day of a
    date in base ten. *)
Definition written_ymd (d : date) (s : string) : Prop :=
  exists y3 y2 y1 y0 m1 m0 d1 d0 : nat,
    (y3 < 10 /\ y2 < 10 /\ y1 < 10 /\ y0 < 10 /\
     m1 < 10 /\ m0 < 10 /\ d1 < 10 /\ d0 < 10)%nat /\
    s = String (char_of_digit y3) (String (char_of_digit y2)
          (String (char_of_digit y1) (String (char_of_digit y0)
          (String "-" (String (char_of_digit m1) (String (char_of_digit m0)
          (String "-" (String (char_of_digit d1) (String (char_of_digit d0)
           EmptyString))))))))) /\
    year d = Z.of_nat (1000 * y3 + 100 * y2 + 10 * y1 + y0) /\
    month d = Z.of_nat (10 * m1 + m0) /\
    day d = Z.of_nat (10 * d1 + d0).

(** [strftime('%d-%m-%Y')]: a date written in the format of the loader. *)
Definition ddmmyyyy (d : date) : string :=
  two_digits (day d) ++ "-" ++ two_digits (month d) ++ "-" ++ four_digits (year d).

End Dates.

(** ** Data frames and the dataset loader *)

Module Loader.

Import Normalizer Dates.

(** A cell of a frame.  A field of a file reads as an integer, as a
    number that is no integer ([CDec m e] is m times ten to the power e),
    as a text, or, when it is empty, as [NaN]; [to_datetime] yields dates
    and [NaT]. *)
Inductive cell : Type :=
  | CInt (z : Z)
  | CDec (m e : Z)
  | CStr (s : string)
  | CNaN
  | CDate (d : date)
  | CNaT.

(** The type of a column, as far as the program tells types apart:
    [int64]; [float64] (and any other number type); [datetime64];
    [object] (texts and everything else). *)
Inductive dtype : Type :=
  | DInt64
  | DFloat64
  | DDatetime
  | DObject.

Definition is_int64 (dt : dtype) : bool :=
  match dt with DInt64 => true | _ => false end.

Definition is_datetime (dt : dtype) : bool :=
  match dt with DDatetime => true | _ => false end.

Definition dtype_eqb (a b : dtype) : bool :=
  match a, b with
  | DInt64, DInt64 | DFloat64, DFloat64 | DDatetime, DDatetime | DObject, DObject => true
  | _, _ => false
  end.

(** [select_dtypes(include=['number'])] *)
Definition is_number_dtype (dt : dtype) : bool :=
  match dt with DInt64 | DFloat64 => true | _ => false end.

(** A frame: its column labels, the type of every column and its rows,
    every row holding one cell per column, in column order. *)
Record frame : Type := mkFrame {
  columns : list string;
  dtypes : list dtype;
  rows : list (list cell)
}.

(** [pd.DataFrame()] *)
Definition empty_frame : frame := mkFrame [] [] [].

(** [df.empty]: some axis has length zero. *)
Definition is_empty_frame (df : frame) : bool :=
  match columns df, rows df with
  | [], _ => true
  | _, [] => true
  | _, _ => false
  end.

(** A file on disk as [pd.read_csv] sees it: it raises, or it returns the
    header and the body. *)
Inductive file : Type :=
  | Unreadable
  | Csv (header : list string) (body : list (list cell)).

Definition in_int64 (z : Z) : bool := ((- 2 ^ 63 <=? z) && (z <? 2 ^ 63))%Z.

Definition is_int64_cell (c : cell) : bool :=
  match c with
  | CInt z => in_int64 z
  | _ => false
  end.

Definition is_number (c : cell) : bool :=
  match c with
  | CInt _ | CDec _ _ | CNaN => true
  | _ => false
  end.

(** The type [read_csv] gives a column: [int64] when every field is an
    integer of 64 bits, [float64] when every field is a number or empty,
    [object] otherwise, and also when the file has no line at all. *)
Definition infer (col : list cell) : dtype :=
  match col with
  | [] => DObject
  | _ =>
      if forallb is_int64_cell col then DInt64
      else if forallb is_number col then DFloat64
      else DObject
  end.

Definition infer_all (header : list string) (body : list (list cell)) : list dtype :=
  map (fun i => infer (map (fun r => nth i r CNaN) body)) (seq 0 (List.length header)).

Definition read_csv (f : file) : result frame :=
  match f with
  | Unreadable => Error ValueError
  | Csv header body => Ok (mkFrame header (infer_all header body) body)
  end.

(** ['date' in col] *)
Fixpoint contains (pat s : string) : bool :=
  String.prefix pat s ||
  match s with
  | EmptyString => false
  | String _ s' => contains pat s'
  end.

Definition has_date (col : string) : bool := contains "date" col.

(** [next((col for col in df.columns if 'date' in col), None)] *)
Definition date_col (cols : list string) : option string := find has_date cols.

Fixpoint index_of (c : string) (cols : list string) : option nat :=
  match cols with
  | [] => None
  | c' :: rest =>
      if String.eqb c c' then Some 0%nat else option_map S (index_of c rest)
  end.

Definition count (c : string) (cols : list string) : nat :=
  List.length (filter (String.eqb c) cols).

(** One value through [to_datetime(..., format='%d-%m-%Y', errors='coerce')].
    A number is turned into its decimal text, which never has the shape
    day-month-year. *)
Definition to_datetime (c : cell) : cell :=
  match c with
  | CStr s => match parse_date s with Some d => CDate d | None => CNaT end
  | CDate d => CDate d
  | CInt _ | CDec _ _ | CNaN | CNaT => CNaT
  end.

Fixpoint update_at {A : Type} (f : A -> A) (i : nat) (l : list A) : list A :=
  match l, i with
  | [], _ => []
  | x :: t, O => f x :: t
  | x :: t, S j => x :: update_at f j t
  end.

(** The column that [to_datetime] returns is a [datetime64] one. *)
Definition as_datetime (i : nat) (dts : list dtype) : list dtype :=
  update_at (fun _ => DDatetime) i dts.

(** The body of the [try] block after [read_csv]: clean the labels, then
    convert the first column whose clean label contains "date".  When that
    label occurs twice, [df[date_col]] is a frame and [to_datetime] raises. *)
Definition normalize (df : frame) : result frame :=
  let cols := map clean_name (columns df) in
  match date_col cols with
  | None => Ok (mkFrame cols (dtypes df) (rows df))
  | Some c =>
      if is_empty c then Ok (mkFrame cols (dtypes df) (rows df))
      else if (2 <=? count c cols)%nat then Error ValueError
      else
        match index_of c cols with
        | Some i => Ok (mkFrame cols (as_datetime i (dtypes df))
                                (map (update_at to_datetime i) (rows df)))
        | None => Error (KeyError c)
        end
  end.

Definition load_file (f : file) : result frame :=
  df <- read_csv f ;; normalize df.

(** The loop over the files: a file whose [try] block raises adds nothing
    to [df_list]. *)
Fixpoint read_all (files : list file) : list frame :=
  match files with
  | [] => []
  | f :: rest =>
      match load_file f with
      | Ok df => df :: read_all rest
      | Error _ => read_all rest
      end
  end.

(** *** [pd.concat(df_list, ignore_index=True)] *)

Definition mem (c : string) (l : list string) : bool := existsb (String.eqb c) l.

(** Labels in order of first appearance. *)
Fixpoint unique_from (seen l : list string) : list string :=
  match l with
  | [] => []
  | c :: t => if mem c seen then unique_from seen t else c :: unique_from (c :: seen) t
  end.

Definition unique (l : list string) : list string := unique_from [] l.

Definition is_unique (l : list string) : bool :=
  (List.length (unique l) =? List.length l)%nat.

Fixpoint labels_eqb (a b : list string) : bool :=
  match a, b with
  | [], [] => true
  | x :: a', y :: b' => String.eqb x y && labels_eqb a' b'
  | _, _ => false
  end.

(** The type of the column of a frame under a label. *)
Definition dtype_of (df : frame) (c : string) : option dtype :=
  match index_of c (columns df) with
  | Some i => nth_error (dtypes df) i
  | None => None
  end.

(** The types a label has in the frames that have it. *)
Fixpoint dtypes_under (c : string) (dfs : list frame) : list dtype :=
  match dfs with
  | [] => []
  | df :: rest =>
      match dtype_of df c with
      | Some dt => dt :: dtypes_under c rest
      | None => dtypes_under c rest
      end
  end.

(** Some frame has no column of that label. *)
Definition lacking (c : string) (dfs : list frame) : bool :=
  existsb (fun df => negb (mem c (columns df))) dfs.

(** The type of a merged column: the common type of its parts, a frame
    without lines counting like any other; a column that some frame lacks
    must be able to hold the missing marker, which [int64] cannot. *)
Definition common (parts : list dtype) (gap : bool) : dtype :=
  if forallb is_datetime parts then DDatetime
  else if forallb is_int64 parts && negb gap then DInt64
  else if forallb is_number_dtype parts then DFloat64
  else DObject.

(** The missing marker of a column. *)
Definition na_of (dt : dtype) : cell :=
  match dt with
  | DDatetime => CNaT
  | _ => CNaN
  end.

(** The cell of row [r] under label [c]; the missing marker [CNaN] when
    the frame has no such column. *)
Definition lookup (cols : list string) (r : list cell) (c : string) : cell :=
  match index_of c cols with
  | Some i => nth i r CNaN
  | None => CNaN
  end.

(** The same, with the missing marker of the merged column. *)
Definition fetch (cols : list string) (r : list cell) (cd : string * dtype) : cell :=
  match index_of (fst cd) cols with
  | Some i => nth i r CNaN
  | None => na_of (snd cd)
  end.

Definition reindex (all : list (string * dtype)) (df : frame) : list (list cell) :=
  map (fun r => map (fetch (columns df) r) all) (rows df).

(** The rows of one frame under the labels of the result.  A frame that
    already has these labels is taken as it is; any other one is
    re-indexed, which raises when its own labels are not unique. *)
Definition align (all : list (string * dtype)) (df : frame) : result (list (list cell)) :=
  if labels_eqb (columns df) (map fst all) then Ok (rows df)
  else if is_unique (columns df) then Ok (reindex all df)
  else Error InvalidIndexError.

Fixpoint align_all (all : list (string * dtype)) (dfs : list frame)
    : result (list (list cell)) :=
  match dfs with
  | [] => Ok []
  | df :: rest =>
      rs <- align all df ;;
      rs' <- align_all all rest ;;
      Ok (rs ++ rs')
  end.

Definition all_same (dfs : list frame) : bool :=
  match dfs with
  | [] => true
  | df :: rest => forallb (fun d => labels_eqb (columns d) (columns df)) rest
  end.

Definition combined_columns (dfs : list frame) : list string :=
  match dfs with
  | [] => []
  | df :: _ =>
      if all_same dfs then columns df
      else unique (List.concat (map columns dfs))
  end.

(** The types of the merged columns: position by position when all
    frames have the same labels, label by label otherwise. *)
Definition combined_dtypes (dfs : list frame) : list dtype :=
  match dfs with
  | [] => []
  | df :: _ =>
      if all_same dfs
      then map (fun i => common (map (fun d => nth i (dtypes d) DObject) dfs) false)
               (seq 0 (List.length (columns df)))
      else map (fun c => common (dtypes_under c dfs) (lacking c dfs))
               (combined_columns dfs)
  end.

Definition concat_frames (dfs : list frame) : result frame :=
  let all := combined_columns dfs in
  let dts := combined_dtypes dfs in
  rs <- align_all (combine all dts) dfs ;;
  Ok (mkFrame all dts rs).

(** A folder: the files directly in it and the files below it. *)
Record folder : Type := mkFolder { direct : list file; nested : list file }.

(** [glob(path/*.csv)], and the recursive search when that finds nothing. *)
Definition discover (d : folder) : list file :=
  match direct d with
  | [] => nested d
  | _ => direct d
  end.

Definition load_df_from_folder (d : folder) : result frame :=
  match read_all (discover d) with
  | [] => Ok empty_frame
  | df_list => concat_frames df_list
  end.

(** *** The fill loop over the loaded datasets

    [numeric_cols = df.select_dtypes(include=['number']).columns;
     df[numeric_cols] = df[numeric_cols].fillna(0)] *)


Definition is_numeric_column (df : frame) (i : nat) : bool :=
  match nth_error (dtypes df) i with
  | Some dt => is_number_dtype dt
  | None => false
  end.

Definition fillna0 (c : cell) : cell :=
  match c with
  | CNaN => CInt 0
  | _ => c
  end.

Fixpoint fill_row (numeric : nat -> bool) (i : nat) (r : list cell) : list cell :=
  match r with
  | [] => []
  | c :: t => (if numeric i then fillna0 c else c) :: fill_row numeric (S i) t
  end.

Definition fill_numeric (df : frame) : frame :=
  if is_empty_frame df then df
  else mkFrame (columns df) (dtypes df)
               (map (fill_row (is_numeric_column df) 0) (rows df)).

(** Loading one category at start-up. *)
Definition load_dataset (d : folder) : result frame :=
  df <- load_df_from_folder d ;; Ok (fill_numeric df).

(** *** Well-formed inputs *)

(** Every row of a frame holds one cell per column. *)
Definition rectangular (df : frame) : Prop :=
  Forall (fun r => List.length r = List.length (columns df)) (rows df).

Definition readable (f : file) : bool :=
  match f with
  | Unreadable => false
  | Csv _ _ => true
  end.

(** A readable file holds a proper table: its clean labels are pairwise
    different and every line has one field per label. *)
Definition proper (f : file) : Prop :=
  match f with
  | Unreadable => True
  | Csv header body =>
      NoDup (map clean_name header) /\
      Forall (fun r => List.length r = List.length header) body
  end.

(** A frame with pairwise different labels and one cell per label in
    every row. *)
Definition tidy (g : frame) : Prop := NoDup (columns g) /\ rectangular g.

(** A frame that has a type for every label. *)
Definition typed (g : frame) : Prop := List.length (dtypes g) = List.length (columns g).


(** The lines of a file; a file that cannot be read has none to give. *)
Definition body_of (f : file) : list (list cell) :=
  match f with
  | Unreadable => []
  | Csv _ body => body
  end.

(** The cells of a frame under a label, row by row; the missing marker
    where the frame has no such label. *)
Definition cells_under (c : string) (df : frame) : list cell :=
  map (fun r => lookup (columns df) r c) (rows df).

(** The cells of a frame under a label, with a given cell where the
    frame has no such label. *)
Definition cells_or (gap : cell) (c : string) (g : frame) : list cell :=
  map (fun r => if mem c (columns g) then lookup (columns g) r c else gap) (rows g).

(** The missing marker that the merge of some frames writes under a
    label: that of the type of the merged column. *)
Definition gap_cell (c : string) (dfs : list frame) : cell :=
  if existsb (fun g => mem c (columns g)) dfs
  then na_of (common (dtypes_under c dfs) (lacking c dfs))
  else CNaN.

(** Three valid files and a corrupt one. *)
Definition three_valid_one_corrupt : list file :=
  [ Csv ["State"; "Date"; "age_0_5"] [[CStr "X"; CStr "01-03-2024"; CInt 10]];
    Unreadable;
    Csv ["state "; "date"; "AGE_0_5"] [[CStr "Y"; CStr "31-02-2024"; CInt 3];
                                        [CStr "Z"; CStr "02-03-2024"; CNaN]];
    Csv ["state"; "district"] [[CStr "X"; CStr "A"]] ].

End Loader.

(** ** 64-bit integer arithmetic: the sums and differences of [int64] columns *)

Module Int64.

Local Open Scope Z_scope.

Definition wrap (z : Z) : Z := (z + 2 ^ 63) mod 2 ^ 64 - 2 ^ 63.

Definition add (a b : Z) : Z := wrap (a + b).
Definition sub (a b : Z) : Z := wrap (a - b).

(** [Series.sum()] of an [int64] column. *)
Definition sum (l : list Z) : Z := fold_left add l 0.

Definition in_range (z : Z) : Prop := - 2 ^ 63 <= z < 2 ^ 63.

(** The sum in the integers, without the wrap-around. *)
Definition exact_sum (l : list Z) : Z := fold_right Z.add 0 l.

End Int64.

(** ** Grouping

    [df.groupby(keys)] with the library's defaults [sort=True] and
    [dropna=True]: the groups come out in ascending key order, each group
    keeps its rows in their original order, and a row with a missing value
    in one of the key columns belongs to no group. *)

Module GroupBy.

Section Grouping.

Context {R K : Type}.

(** The order of the key values. *)
Variable cmp : K -> K -> comparison.

(** The key of a row; [None] when a key column holds [NaN] or [NaT]. *)
Variable key : R -> option K.

Fixpoint add_to_group (k : K) (r : R) (groups : list (K * list R)) : list (K * list R) :=
  match groups with
  | [] => [(k, [r])]
  | (k', g) :: rest =>
      match cmp k k' with
      | Lt => (k, [r]) :: groups
      | Eq => (k', g ++ [r]) :: rest
      | Gt => (k', g) :: add_to_group k r rest
      end
  end.

Definition step (groups : list (K * list R)) (r : R) : list (K * list R) :=
  match key r with
  | Some k => add_to_group k r groups
  | None => groups
  end.

Definition groupby (rows : list R) : list (K * list R) :=
  fold_left step rows [].

(** [groupby(keys)[col].sum()]: one output row per group. *)
Definition group_sum (col : R -> Z) (rows : list R) : list (K * Z) :=
  map (fun kg => (fst kg, Int64.sum (map col (snd kg)))) (groupby rows).

(** The rows that have a key. *)
Definition keyed (rows : list R) : list R :=
  filter (fun r => match key r with Some _ => true | None => false end) rows.

(** The key tuples of the input, missing ones included. *)
Definition key_tuples (rows : list R) : list (option K) := map key rows.

Definition same_key (a b : option K) : bool :=
  match a, b with
  | Some x, Some y => match cmp x y with Eq => true | _ => false end
  | None, None => true
  | _, _ => false
  end.


(** Every group is inhabited and holds rows of its own key only. *)
Definition well_grouped (gs : list (K * list R)) : Prop :=
  Forall (fun kg => snd kg <> [] /\ Forall (fun r => key r = Some (fst kg)) (snd kg)) gs.

(** The keys of the groups ascend strictly. *)
Definition ascending (gs : list (K * list R)) : Prop :=
  StronglySorted (fun a b => cmp a b = Lt) (map fst gs).

(** The rows with key [k], in their order. *)
Definition rows_of_key (k : K) (rows : list R) : list R :=
  filter (fun r => same_key (key r) (Some k)) rows.

(** The members of the group of [k]; none when there is no such group. *)
Fixpoint group_of (k : K) (gs : list (K * list R)) : list R :=
  match gs with
  | [] => []
  | (k', g) :: rest =>
      match cmp k k' with
      | Eq => g
      | _ => group_of k rest
      end
  end.

End Grouping.

(** What the grouping needs of the order of the key values: it is a
    strict total order that [cmp] decides. *)
Class OrderLaws {K : Type} (cmp : K -> K -> comparison) : Prop := {
  cmp_eq : forall a b, cmp a b = Eq <-> a = b;
  cmp_antisym : forall a b, cmp b a = CompOpp (cmp a b);
  cmp_trans : forall a b c, cmp a b = Lt -> cmp b c = Lt -> cmp a c = Lt
}.

(** Lexicographic order of a pair of key columns. *)
Definition cmp_pair {A B : Type} (ca : A -> A -> comparison) (cb : B -> B -> comparison)
    (x y : A * B) : comparison :=
  match ca (fst x) (fst y) with
  | Eq => cb (snd x) (snd y)
  | o => o
  end.

End GroupBy.

(** ** The loaded datasets as the queries read them

    A loaded dataset is either [pd.DataFrame()], which has no column at
    all, or a table with the columns of its category.  The records below
    are the rows of a table whose count columns are of type [int64],
    whose [state] and [district] columns hold texts and whose [date]
    column holds dates; [None] stands for a missing text ([NaN]) or a
    missing date ([NaT]).  [enrolment], [demographic] and [biometric]
    read a loaded frame as such a table, and find none when a column has
    another type: the sums of a [float64] column are floating-point sums
    of the library and are not part of this development. *)

Module Data.

Import Dates.

Record Enrolment : Type := mkEnrolment {
  date : option date;
  state : option string;
  district : option string;
  age_0_5 : Z;
  age_5_17 : Z;
  age_18_greater : Z
}.

Record Demographic : Type := mkDemographic {
  demo_state : option string;
  demo_age_5_17 : Z
}.

Record Biometric : Type := mkBiometric {
  bio_state : option string;
  bio_age_5_17 : Z;
  bio_age_17_ : Z
}.

Inductive dataset (R : Type) : Type :=
  | NoColumns
  | Table (rows : list R).

Arguments NoColumns {R}.
Arguments Table {R} rows.

(** [df.empty] *)
Definition empty {R : Type} (df : dataset R) : bool :=
  match df with
  | NoColumns => true
  | Table [] => true
  | Table (_ :: _) => false
  end.

(** [len(df)] *)
Definition len {R : Type} (df : dataset R) : Z :=
  match df with
  | NoColumns => 0
  | Table rows => Z.of_nat (List.length rows)
  end.

(** [df[name]]: a [KeyError] on the frame without columns. *)
Definition column {R A : Type} (name : string) (field : R -> A) (df : dataset R)
    : result (list A) :=
  match df with
  | NoColumns => Error (KeyError name)
  | Table rows => Ok (map field rows)
  end.

(** The rows of a frame that is about to be grouped by [name]. *)
Definition rows_by {R : Type} (name : string) (df : dataset R) : result (list R) :=
  column name (fun r => r) df.

(** *** Reading a loaded frame *)

Definition and_then {A B : Type} (o : option A) (k : A -> option B) : option B :=
  match o with
  | Some a => k a
  | None => None
  end.

Notation "x <-- o ;; k" := (and_then o (fun x => k))
  (at level 61, o at next level, right associativity).

Fixpoint all_some {A B : Type} (f : A -> option B) (l : list A) : option (list B) :=
  match l with
  | [] => Some []
  | a :: t => b <-- f a ;; bs <-- all_some f t ;; Some (b :: bs)
  end.

(** A cell of a text column: a text, or the missing marker. *)
Definition text_cell (c : Loader.cell) : option (option string) :=
  match c with
  | Loader.CStr s => Some (Some s)
  | Loader.CNaN => Some None
  | _ => None
  end.

(** A cell of a date column. *)
Definition date_cell (c : Loader.cell) : option (option Dates.date) :=
  match c with
  | Loader.CDate d => Some (Some d)
  | Loader.CNaT => Some None
  | _ => None
  end.

(** A cell of an [int64] column. *)
Definition count_cell (c : Loader.cell) : option Z :=
  match c with
  | Loader.CInt z => if Loader.in_int64 z then Some z else None
  | _ => None
  end.

(** The position of a label that the frame has once, with a column of
    the given type. *)
Definition position (df : Loader.frame) (c : string) (dt : Loader.dtype) : option nat :=
  match Loader.index_of c (Loader.columns df) with
  | Some i =>
      if (Loader.count c (Loader.columns df) =? 1)%nat &&
         Loader.dtype_eqb (nth i (Loader.dtypes df) Loader.DObject) dt
      then Some i else None
  | None => None
  end.

Definition cell_at (i : nat) (r : list Loader.cell) : Loader.cell := nth i r Loader.CNaN.

Definition enrolment (df : Loader.frame) : option (dataset Enrolment) :=
  match Loader.columns df with
  | [] => Some NoColumns
  | _ =>
      i_date <-- position df "date" Loader.DDatetime ;;
      i_state <-- position df "state" Loader.DObject ;;
      i_district <-- position df "district" Loader.DObject ;;
      i_a <-- position df "age_0_5" Loader.DInt64 ;;
      i_b <-- position df "age_5_17" Loader.DInt64 ;;
      i_c <-- position df "age_18_greater" Loader.DInt64 ;;
      rows <-- all_some
                 (fun r =>
                    d <-- date_cell (cell_at i_date r) ;;
                    s <-- text_cell (cell_at i_state r) ;;
                    di <-- text_cell (cell_at i_district r) ;;
                    a <-- count_cell (cell_at i_a r) ;;
                    b <-- count_cell (cell_at i_b r) ;;
                    c <-- count_cell (cell_at i_c r) ;;
                    Some (mkEnrolment d s di a b c))
                 (Loader.rows df) ;;
      Some (Table rows)
  end.

Definition demographic (df : Loader.frame) : option (dataset Demographic) :=
  match Loader.columns df with
  | [] => Some NoColumns
  | _ =>
      i_state <-- position df "state" Loader.DObject ;;
      i_a <-- position df "demo_age_5_17" Loader.DInt64 ;;
      rows <-- all_some
                 (fun r =>
                    s <-- text_cell (cell_at i_state r) ;;
                    a <-- count_cell (cell_at i_a r) ;;
                    Some (mkDemographic s a))
                 (Loader.rows df) ;;
      Some (Table rows)
  end.

Definition biometric (df : Loader.frame) : option (dataset Biometric) :=
  match Loader.columns df with
  | [] => Some NoColumns
  | _ =>
      i_state <-- position df "state" Loader.DObject ;;
      i_a <-- position df "bio_age_5_17" Loader.DInt64 ;;
      i_b <-- position df "bio_age_17_" Loader.DInt64 ;;
      rows <-- all_some
                 (fun r =>
                    s <-- text_cell (cell_at i_state r) ;;
                    a <-- count_cell (cell_at i_a r) ;;
                    b <-- count_cell (cell_at i_b r) ;;
                    Some (mkBiometric s a b))
                 (Loader.rows df) ;;
      Some (Table rows)
  end.



End Data.

(** ** Query facade of [backend.py] *)

Module Backend.

Import Dates Data GroupBy.

(** *** [/stats] *)

Record EnrolmentStats : Type := mkEnrolmentStats {
  enrolment_records : Z;
  age_0_5_total : Z;
  age_5_17_total : Z;
  age_18_greater_total : Z
}.

Record Stats : Type := mkStats {
  enrolment_stats : EnrolmentStats;
  demographic_stats : Z * Z;   (* total_records, demo_age_5_17_total *)
  biometric_stats : Z * Z      (* total_records, bio_age_5_17_total *)
}.

(** [int(df[name].sum()) if not df.empty else 0] *)
Definition total_of {R : Type} (name : string) (field : R -> Z) (df : dataset R) : result Z :=
  if empty df then Ok 0%Z
  else col <- column name field df ;; Ok (Int64.sum col).

Definition get_stats (df_enrolment : dataset Enrolment)
    (df_demographic : dataset Demographic) (df_biometric : dataset Biometric)
    : result Stats :=
  a <- total_of "age_0_5" age_0_5 df_enrolment ;;
  b <- total_of "age_5_17" age_5_17 df_enrolment ;;
  c <- total_of "age_18_greater" age_18_greater df_enrolment ;;
  d <- total_of "demo_age_5_17" demo_age_5_17 df_demographic ;;
  e <- total_of "bio_age_5_17" bio_age_5_17 df_biometric ;;
  Ok (mkStats (mkEnrolmentStats (len df_enrolment) a b c)
              (len df_demographic, d) (len df_biometric, e)).

(** *** [/analytics/state-summary] *)

Record EnrolmentByState : Type := mkEnrolmentByState {
  es_state : string;
  es_age_0_5 : Z;
  es_age_5_17 : Z;
  es_age_18_greater : Z;
  total_enrolment : Z
}.

Record BiometricByState : Type := mkBiometricByState {
  bs_state : string;
  bs_bio_age_5_17 : Z;
  bs_bio_age_17_ : Z;
  total_biometric : Z
}.

(** The dictionary [summary]: a key is present ([Some]) when its dataset
    is not empty. *)
Record Summary : Type := mkSummary {
  summary_enrolment : option (list EnrolmentByState);
  summary_biometric : option (list BiometricByState)
}.

Definition enrolment_by_state (rows : list Enrolment) : list EnrolmentByState :=
  map (fun kg =>
         let g := snd kg in
         let a := Int64.sum (map age_0_5 g) in
         let b := Int64.sum (map age_5_17 g) in
         let c := Int64.sum (map age_18_greater g) in
         mkEnrolmentByState (fst kg) a b c (Int64.add (Int64.add a b) c))
      (groupby String.compare state rows).

Definition biometric_by_state (rows : list Biometric) : list BiometricByState :=
  map (fun kg =>
         let g := snd kg in
         let a := Int64.sum (map bio_age_5_17 g) in
         let b := Int64.sum (map bio_age_17_ g) in
         mkBiometricByState (fst kg) a b (Int64.add a b))
      (groupby String.compare bio_state rows).

Definition get_state_summary (df_enrolment : dataset Enrolment)
    (df_biometric : dataset Biometric) : result Summary :=
  e <- (if negb (empty df_enrolment)
        then rows <- rows_by "state" df_enrolment ;; Ok (Some (enrolment_by_state rows))
        else Ok None) ;;
  b <- (if negb (empty df_biometric)
        then rows <- rows_by "state" df_biometric ;; Ok (Some (biometric_by_state rows))
        else Ok None) ;;
  Ok (mkSummary e b).

(** *** [/analytics/trends] *)

Record TrendRow : Type := mkTrendRow {
  tr_date : string;
  tr_age_0_5 : Z;
  tr_age_5_17 : Z;
  tr_age_18_greater : Z
}.

Definition trend (rows : list Enrolment) : list TrendRow :=
  map (fun kg =>
         let g := snd kg in
         mkTrendRow (strftime (fst kg))
                    (Int64.sum (map age_0_5 g))
                    (Int64.sum (map age_5_17 g))
                    (Int64.sum (map age_18_greater g)))
      (groupby Dates.compare date rows).

Definition get_trends (df_enrolment : dataset Enrolment) : result (list TrendRow) :=
  if empty df_enrolment then Ok []
  else rows <- rows_by "date" df_enrolment ;; Ok (trend rows).

(** *** [/analytics/district-rankings] *)

Record RankRow : Type := mkRankRow {
  rk_state : string;
  rk_district : string;
  total : Z
}.

(** [df['total'] = df['age_0_5'] + df['age_5_17'] + df['age_18_greater']] *)
Definition row_total (r : Enrolment) : Z :=
  Int64.add (Int64.add (age_0_5 r) (age_5_17 r)) (age_18_greater r).

Definition state_district (r : Enrolment) : option (string * string) :=
  match state r, district r with
  | Some s, Some d => Some (s, d)
  | _, _ => None
  end.

(** [df.groupby(['state', 'district'])['total'].sum().reset_index()] *)
Definition district_totals (rows : list Enrolment) : list RankRow :=
  map (fun kt => mkRankRow (fst (fst kt)) (snd (fst kt)) (snd kt))
      (group_sum (cmp_pair String.compare String.compare) state_district row_total rows).

Definition state_is (s : string) (r : Enrolment) : bool :=
  match state r with
  | Some s' => String.eqb s' s
  | None => false
  end.

(** [if state: df = df[df['state'] == state]]: [None] and the empty text
    are both false in a condition. *)
Definition filter_state (st : option string) (rows : list Enrolment) : list Enrolment :=
  match st with
  | None => rows
  | Some EmptyString => rows
  | Some s => filter (state_is s) rows
  end.

(** The order that [sort_values('total', ascending=False)] establishes. *)
Definition descending (a b : RankRow) : Prop := (total b <= total a)%Z.

Section Rankings.

(** [sort_values('total', ascending=False)] with the library's default
    sort kind, which is not a stable one: the result has the rows of
    its argument with the totals in descending order, and nothing is
    known about the order of rows with equal totals. *)
Variable sort_values : list RankRow -> list RankRow.

Definition get_district_rankings (df_enrolment : dataset Enrolment)
    (st : option string) : result (list RankRow) :=
  if empty df_enrolment then Ok []
  else
    rows <- rows_by "state" df_enrolment ;;
    Ok (firstn 20 (sort_values (district_totals (filter_state st rows)))).

End Rankings.

(** What is known of the sort. *)
Definition sorts_descending (sort_values : list RankRow -> list RankRow) : Prop :=
  forall l, Permutation l (sort_values l) /\ Sorted descending (sort_values l).

(** Insertion into a descending list: [x] moves on past [y] as long as
    [past x y] holds. *)
Fixpoint insert_desc (past : RankRow -> RankRow -> bool) (x : RankRow)
    (l : list RankRow) : list RankRow :=
  match l with
  | [] => [x]
  | y :: t => if past x y then y :: insert_desc past x t else x :: l
  end.

(** A descending sort that orders as the contract asks, for examples: a
    row moves past the strictly larger ones only. *)
Definition stable_sort (l : list RankRow) : list RankRow :=
  fold_right (insert_desc (fun x y => (total x <? total y)%Z)) [] l.

(** The rows of one district of one state. *)
Definition district_is (s d : string) (r : Enrolment) : bool :=
  match state_district r with
  | Some (s', d') => String.eqb s' s && String.eqb d' d
  | None => false
  end.



(** The rows of one date. *)
Definition date_is (d : Dates.date) (r : Enrolment) : bool :=
  same_key Dates.compare (Data.date r) (Some d).

End Backend.

(** ** Double-precision floats

    Division of two integer columns is the true division of the library:
    both operands become doubles (round to nearest even) and the quotient
    follows IEEE 754, so a zero divisor gives an infinity or [NaN] and no
    exception. *)

Module Float64.

Definition prec : Z := 53.
Definition emax : Z := 1024.

Definition of_Z (z : Z) : spec_float := binary_normalize prec emax z 0 false.
Definition div (x y : spec_float) : spec_float := SFdiv prec emax x y.
Definition mul (x y : spec_float) : spec_float := SFmul prec emax x y.

Definition is_nan (x : spec_float) : bool :=
  match x with S754_nan => true | _ => false end.

Definition is_infinity (x : spec_float) : bool :=
  match x with S754_infinity _ => true | _ => false end.

Definition is_zero (x : spec_float) : bool :=
  match x with S754_zero _ => true | _ => false end.

End Float64.

(** ** The "Biometric Performance" page of [frontend.py] *)

Module Frontend.

Import Data GroupBy.

(** [df_enrolment['total_enrolment']] and [df_biometric['total_biometric']],
    the computed columns. *)
Definition total_enrolment (r : Enrolment) : Z :=
  Int64.add (Int64.add (age_0_5 r) (age_5_17 r)) (age_18_greater r).

Definition total_biometric (r : Biometric) : Z :=
  Int64.add (bio_age_5_17 r) (bio_age_17_ r).

Record CoverageRow : Type := mkCoverageRow {
  cov_state : string;
  enrolment_total : Z;
  biometric_total : Z;
  pending_biometrics : Z;
  coverage_pct : spec_float
}.

(** [(merged['total_biometric'] / merged['total_enrolment']) * 100] *)
Definition coverage (biometric enrolment : Z) : spec_float :=
  Float64.mul (Float64.div (Float64.of_Z biometric) (Float64.of_Z enrolment))
              (Float64.of_Z 100).

Definition coverage_row (s : string) (enrolment biometric : Z) : CoverageRow :=
  mkCoverageRow s enrolment biometric (Int64.sub enrolment biometric)
                (coverage biometric enrolment).

(** [pd.merge(enr_agg, bio_agg, on='state', how='inner')]: the rows of the
    left frame in their order, each with the rows of the right frame that
    have its state. *)
Definition merge_inner (enr_agg bio_agg : list (string * Z)) : list (string * Z * Z) :=
  flat_map (fun e =>
              map (fun b => (fst e, snd e, snd b))
                  (filter (fun b => String.eqb (fst b) (fst e)) bio_agg))
           enr_agg.

Definition pendingAndCoverage (enr_agg bio_agg : list (string * Z)) : list CoverageRow :=
  map (fun m => coverage_row (fst (fst m)) (snd (fst m)) (snd m))
      (merge_inner enr_agg bio_agg).

(** The page body; [None] when the guard of the page is false and nothing
    is computed. *)
Definition biometric_performance (df_enrolment : dataset Enrolment)
    (df_biometric : dataset Biometric) : result (option (list CoverageRow)) :=
  if negb (empty df_biometric) && negb (empty df_enrolment) then
    bio <- rows_by "state" df_biometric ;;
    enr <- rows_by "state" df_enrolment ;;
    let bio_agg := group_sum String.compare bio_state total_biometric bio in
    let enr_agg := group_sum String.compare state total_enrolment enr in
    Ok (Some (pendingAndCoverage enr_agg bio_agg))
  else Ok None.

End Frontend.

(** ** The other pages of [frontend.py] *)

Module Pages.

Import Data GroupBy.

(** The values of a column that are not missing. *)
Fixpoint present {A : Type} (col : list (option A)) : list A :=
  match col with
  | [] => []
  | Some a :: t => a :: present t
  | None :: t => present t
  end.

(** [Series.nunique()]: the number of distinct values, missing ones not
    counted. *)
Definition nunique (col : list (option string)) : Z :=
  Z.of_nat (List.length (nodup string_dec (present col))).

(** *** Executive Overview *)

Record Overview : Type := mkOverview {
  kpi_enrolments : Z;
  kpi_biometric : Z;
  kpi_coverage : spec_float;
  kpi_demographic : Z;
  kpi_states : Z
}.

(** [total_bio/total_enr*100 if total_enr else 0] *)
Definition overall_coverage (total_bio total_enr : Z) : spec_float :=
  if (total_enr =? 0)%Z then S754_zero false
  else Float64.mul (Float64.div (Float64.of_Z total_bio) (Float64.of_Z total_enr))
                   (Float64.of_Z 100).

Definition executive_overview (df_enrolment : dataset Enrolment)
    (df_demographic : dataset Demographic) (df_biometric : dataset Biometric)
    : result Overview :=
  total_enr <- (if negb (empty df_enrolment)
                then col <- column "total_enrolment" Frontend.total_enrolment df_enrolment ;;
                     Ok (Int64.sum col)
                else Ok 0%Z) ;;
  total_bio <- (if negb (empty df_biometric)
                then col <- column "total_biometric" Frontend.total_biometric df_biometric ;;
                     Ok (Int64.sum col)
                else Ok 0%Z) ;;
  states <- (if negb (empty df_enrolment)
             then col <- column "state" state df_enrolment ;; Ok (nunique col)
             else Ok 0%Z) ;;
  Ok (mkOverview total_enr total_bio (overall_coverage total_bio total_enr)
                 (len df_demographic) states).

(** *** Geographic Analysis *)

Section Geographic.

(** [sort_values('total_enrolment', ascending=False)], known up to the
    order of equal totals. *)
Variable sort_states : list (string * Z) -> list (string * Z).

(** [groupby('state')['total_enrolment'].sum().reset_index().sort_values(...)] *)
Definition state_agg (rows : list Enrolment) : list (string * Z) :=
  sort_states (group_sum String.compare state Frontend.total_enrolment rows).

(** [state_agg.head(10)] *)
Definition leaderboard (rows : list Enrolment) : list (string * Z) :=
  firstn 10 (state_agg rows).

End Geographic.

(** [df_enrolment[df_enrolment['state'] == selected_state]
      .groupby('district')['total_enrolment'].sum().reset_index()] *)
Definition district_agg (selected : string) (rows : list Enrolment) : list (string * Z) :=
  group_sum String.compare district Frontend.total_enrolment
            (filter (Backend.state_is selected) rows).

(** What is known of the sort of the state aggregate. *)
Definition sorts_states (sort_states : list (string * Z) -> list (string * Z)) : Prop :=
  forall l, Permutation l (sort_states l) /\
            Sorted (fun a b => (snd b <= snd a)%Z) (sort_states l).

(** A sort of the state aggregate that keeps equal totals in their
    order. *)
Fixpoint insert_state (x : string * Z) (l : list (string * Z)) : list (string * Z) :=
  match l with
  | [] => [x]
  | y :: t => if (snd x <? snd y)%Z then y :: insert_state x t else x :: l
  end.

Definition stable_sort_states (l : list (string * Z)) : list (string * Z) :=
  fold_right insert_state [] l.

End Pages.

(** ** The loader of [app.py]

    It reads the files directly in the folder, merges them as they are
    and cleans the labels of the merged frame afterwards; it converts no
    date and fills no number. *)

Module App.

Import Normalizer Loader.

Fixpoint raw_frames (files : list file) : list frame :=
  match files with
  | [] => []
  | f :: rest =>
      match read_csv f with
      | Ok df => df :: raw_frames rest
      | Error _ => raw_frames rest
      end
  end.

Definition read_folder (files : list file) : result frame :=
  match raw_frames files with
  | [] => Ok empty_frame
  | df_list => concat_frames df_list
  end.

(** [if not df.empty: df.columns = ...str.strip().str.lower().str.replace(' ', '_')] *)
Definition clean_columns (df : frame) : frame :=
  if is_empty_frame df then df
  else mkFrame (map clean_name (columns df)) (dtypes df) (rows df).

Definition load_data (d : folder) : result frame :=
  df <- read_folder (direct d) ;; Ok (clean_columns df).

(** A file whose labels are clean as they stand and name no date. *)
Definition plain (f : file) : Prop :=
  match f with
  | Unreadable => True
  | Csv header _ => Forall (fun c => clean_name c = c /\ has_date c = false) header
  end.

End App.

(** ** Sample data *)

Module Samples.

Import Loader Data.

(** An enrolment file, the frame it is loaded into and the rows that the
    queries read. *)
Definition enrolment_file : file :=
  Csv ["Date"; "State"; "District"; "age_0_5"; "age_5_17"; "age_18_greater"]
      [ [CStr "01-03-2024"; CStr "X"; CStr "A"; CInt 1; CInt 2; CInt 3];
        [CStr "15-01-2024"; CStr "Y"; CStr "B"; CInt 4; CInt 5; CInt 6];
        [CStr "01-03-2024"; CStr "X"; CStr "C"; CInt 7; CInt 8; CInt 9] ].

Definition enrolment_frame : frame :=
  mkFrame ["date"; "state"; "district"; "age_0_5"; "age_5_17"; "age_18_greater"]
          [DDatetime; DObject; DObject; DInt64; DInt64; DInt64]
          [ [CDate (Dates.mkDate 2024 3 1); CStr "X"; CStr "A"; CInt 1; CInt 2; CInt 3];
            [CDate (Dates.mkDate 2024 1 15); CStr "Y"; CStr "B"; CInt 4; CInt 5; CInt 6];
            [CDate (Dates.mkDate 2024 3 1); CStr "X"; CStr "C"; CInt 7; CInt 8; CInt 9] ].

Definition enrolment_rows : list Enrolment :=
  [ mkEnrolment (Some (Dates.mkDate 2024 3 1)) (Some "X") (Some "A") 1 2 3;
    mkEnrolment (Some (Dates.mkDate 2024 1 15)) (Some "Y") (Some "B") 4 5 6;
    mkEnrolment (Some (Dates.mkDate 2024 3 1)) (Some "X") (Some "C") 7 8 9 ].

(** The same rows in another order, as a folder whose files are found
    in another order gives them. *)
Definition enrolment_frame' : frame :=
  mkFrame ["date"; "state"; "district"; "age_0_5"; "age_5_17"; "age_18_greater"]
          [DDatetime; DObject; DObject; DInt64; DInt64; DInt64]
          [ [CDate (Dates.mkDate 2024 1 15); CStr "Y"; CStr "B"; CInt 4; CInt 5; CInt 6];
            [CDate (Dates.mkDate 2024 3 1); CStr "X"; CStr "A"; CInt 1; CInt 2; CInt 3];
            [CDate (Dates.mkDate 2024 3 1); CStr "X"; CStr "C"; CInt 7; CInt 8; CInt 9] ].

Definition enrolment_rows' : list Enrolment :=
  [ mkEnrolment (Some (Dates.mkDate 2024 1 15)) (Some "Y") (Some "B") 4 5 6;
    mkEnrolment (Some (Dates.mkDate 2024 3 1)) (Some "X") (Some "A") 1 2 3;
    mkEnrolment (Some (Dates.mkDate 2024 3 1)) (Some "X") (Some "C") 7 8 9 ].

Definition biometric_file : file :=
  Csv ["State"; "bio_age_5_17"; "bio_age_17_"]
      [ [CStr "X"; CInt 2; CInt 3]; [CStr "Z"; CInt 1; CInt 1] ].

Definition biometric_frame : frame :=
  mkFrame ["state"; "bio_age_5_17"; "bio_age_17_"] [DObject; DInt64; DInt64]
          [ [CStr "X"; CInt 2; CInt 3]; [CStr "Z"; CInt 1; CInt 1] ].

Definition biometric_rows : list Biometric :=
  [ mkBiometric (Some "X") 2 3; mkBiometric (Some "Z") 1 1 ].

Definition demographic_frame : frame :=
  mkFrame ["state"; "demo_age_5_17"] [DObject; DInt64] [ [CStr "X"; CInt 5] ].

Definition demographic_rows : list Demographic := [ mkDemographic (Some "X") 5 ].

End Samples.

(** * Properties *)

(** ** The normalizer *)

Import Normalizer.

Open Scope string_scope.

Lemma is_space_lower_char (c : ascii) : is_space (lower_char c) = is_space c.
Proof. destruct c as [[] [] [] [] [] [] [] []]; reflexivity. Qed.

Lemma lower_char_idem (c : ascii) : lower_char (lower_char c) = lower_char c.
Proof. destruct c as [[] [] [] [] [] [] [] []]; reflexivity. Qed.



Lemma replace_char_keeps_non_space (c : ascii) :
  is_space c = false -> is_space (replace_char c) = false.
Proof. destruct c as [[] [] [] [] [] [] [] []]; simpl; intro H; try reflexivity; discriminate H. Qed.


Lemma smap_smap (f g : ascii -> ascii) (s : string) :
  smap f (smap g s) = smap (fun c => f (g c)) s.
Proof. induction s as [|c s IH]; simpl; [reflexivity | now rewrite IH]. Qed.


Lemma rstrip_idem (s : string) : rstrip (rstrip s) = rstrip s.
Proof.
  induction s as [|c s IH]; simpl; [reflexivity|].
  destruct (is_space c && is_empty (rstrip s)) eqn:E; simpl; [reflexivity|].
  now rewrite IH, E.
Qed.

Lemma head_ok_lstrip (s : string) : head_ok (lstrip s).
Proof.
  induction s as [|c s IH]; simpl; [exact I|].
  destruct (is_space c) eqn:E; [exact IH | exact E].
Qed.

Lemma lstrip_head_ok (s : string) : head_ok s -> lstrip s = s.
Proof. destruct s as [|c s]; simpl; [reflexivity|]. now intros ->. Qed.

Lemma head_ok_rstrip (s : string) : head_ok s -> head_ok (rstrip s).
Proof.
  destruct s as [|c s]; simpl; [trivial|].
  intros H; rewrite H; simpl. exact H.
Qed.

Lemma head_ok_smap (f : ascii -> ascii) (s : string) :
  (forall c, is_space c = false -> is_space (f c) = false) ->
  head_ok s -> head_ok (smap f s).
Proof. intros Hf; destruct s as [|c s]; simpl; auto. Qed.


Lemma strip_fixed (s : string) : strip (strip s) = strip s.
Proof.
  unfold strip.
  rewrite (lstrip_head_ok (rstrip (lstrip s))).
  - apply rstrip_idem.
  - apply head_ok_rstrip, head_ok_lstrip.
Qed.


Lemma clean_name_smap (raw : string) : clean_name raw = smap clean_char (strip raw).
Proof. unfold clean_name, replace_space, lower. now rewrite smap_smap. Qed.

Lemma clean_char_keeps_non_space (c : ascii) :
  is_space c = false -> is_space (clean_char c) = false.
Proof.
  intros H. apply replace_char_keeps_non_space. now rewrite is_space_lower_char.
Qed.
















Open Scope list_scope.

(** ** The fill loop *)

Import Dates Loader.


Lemma length_fill_row (numeric : nat -> bool) (r : list cell) (k : nat) :
  List.length (fill_row numeric k r) = List.length r.
Proof. revert k; induction r as [|c r IH]; intros k; simpl; [reflexivity | now rewrite IH]. Qed.





(** A file that has the header and no line makes every column it shares
    with the other files an object column, which is not filled either. *)
Example header_only_file_not_filled :
  load_dataset
    (mkFolder [ Csv ["state"; "age_0_5"] [[CStr "X"; CInt 3]; [CStr "Y"; CNaN]];
                Csv ["state"; "age_0_5"] [] ] []) =
  Ok (mkFrame ["state"; "age_0_5"] [DObject; DObject]
              [[CStr "X"; CInt 3]; [CStr "Y"; CNaN]]).
Proof. reflexivity. Qed.

(** ** Date columns *)

Lemma nth_error_update_at {A : Type} (f : A -> A) (i : nat) (l : list A) (j : nat) :
  nth_error (update_at f i l) j =
  if (j =? i)%nat then option_map f (nth_error l j) else nth_error l j.
Proof.
  revert i j; induction l as [|x l IH]; intros i j.
  - destruct i, j; simpl; try reflexivity; now destruct (j =? i)%nat.
  - destruct i as [|i], j as [|j]; simpl; try reflexivity. apply IH.
Qed.

Lemma length_update_at {A : Type} (f : A -> A) (i : nat) (l : list A) :
  List.length (update_at f i l) = List.length l.
Proof.
  revert i; induction l as [|x l IH]; intros [|i]; simpl; try reflexivity.
  now rewrite IH.
Qed.

Lemma has_date_not_empty (c : string) : has_date c = true -> is_empty c = false.
Proof. destruct c; [discriminate | reflexivity]. Qed.

(** The label that [date_col] finds sits at the first position whose label
    contains "date", and [index_of] finds that position. *)
Lemma date_col_position (cols : list string) (c : string) :
  date_col cols = Some c ->
  has_date c = true /\
  exists i, index_of c cols = Some i /\ nth_error cols i = Some c /\
            forall j c', (j < i)%nat -> nth_error cols j = Some c' -> has_date c' = false.
Proof.
  unfold date_col. induction cols as [|x cols IH]; simpl; [discriminate|].
  destruct (has_date x) eqn:Hx.
  - intros H; injection H as <-. split; [exact Hx|].
    exists 0%nat. rewrite String.eqb_refl. repeat split. intros j c' Hj; lia.
  - intros H. destruct (IH H) as [Hc [i [Hi [Hn Hfirst]]]]. split; [exact Hc|].
    destruct (String.eqb c x) eqn:E.
    + apply String.eqb_eq in E; subst x. rewrite Hc in Hx; discriminate.
    + exists (S i). rewrite Hi. repeat split; [exact Hn|].
      intros [|j] c' Hj; simpl.
      * intros H'; injection H' as <-; exact Hx.
      * apply Hfirst; lia.
Qed.

(** C5 (as amended).  In a file whose first clean label containing "date"
    occurs once, the column under that label, and no other, is parsed with
    the fixed format: no exception, every row kept, the cell under the
    label turned into a date or, when it does not parse, into [NaT], and
    every other cell as it was.  "31-02-2024" does not parse. *)
Theorem normalize_parses_first_date_column (df : frame) (c : string) :
  date_col (map clean_name (columns df)) = Some c ->
  count c (map clean_name (columns df)) = 1%nat ->
  exists i,
    nth_error (map clean_name (columns df)) i = Some c /\
    (forall j c', (j < i)%nat ->
        nth_error (map clean_name (columns df)) j = Some c' -> has_date c' = false) /\
    normalize df =
      Ok (mkFrame (map clean_name (columns df)) (as_datetime i (dtypes df))
                  (map (update_at to_datetime i) (rows df))) /\
    List.length (map (update_at to_datetime i) (rows df)) = List.length (rows df) /\
    (forall r j, nth_error (update_at to_datetime i r) j =
                 if (j =? i)%nat then option_map to_datetime (nth_error r j)
                 else nth_error r j) /\
    (forall s, to_datetime (CStr s) =
               match parse_date s with Some d => CDate d | None => CNaT end) /\
    to_datetime (CStr "31-02-2024") = CNaT.
Proof.
  intros Hcol Hcount.
  destruct (date_col_position _ _ Hcol) as [Hc [i [Hi [Hn Hfirst]]]].
  exists i. split; [exact Hn|]. split; [exact Hfirst|]. split.
  - unfold normalize. rewrite Hcol, (has_date_not_empty c Hc), Hcount, Hi. reflexivity.
  - split; [apply length_map|]. split; [intros r j; apply nth_error_update_at|].
    split; [reflexivity | reflexivity].
Qed.

Lemma normalize_parses_first_date_column_witness :
  exists i,
    load_file (Csv ["State"; " Date "] [[CStr "X"; CStr "31-02-2024"]; [CStr "Y"; CStr "15-08-2024"]]) =
      Ok (mkFrame ["state"; "date"] (as_datetime i [DObject; DObject])
            (map (update_at to_datetime i) [[CStr "X"; CStr "31-02-2024"]; [CStr "Y"; CStr "15-08-2024"]])) /\
    map (update_at to_datetime i) [[CStr "X"; CStr "31-02-2024"]; [CStr "Y"; CStr "15-08-2024"]] =
      [[CStr "X"; CNaT]; [CStr "Y"; CDate (mkDate 2024 8 15)]].
Proof.
  destruct (normalize_parses_first_date_column
              (mkFrame ["State"; " Date "] [DObject; DObject]
                       [[CStr "X"; CStr "31-02-2024"]; [CStr "Y"; CStr "15-08-2024"]])
              "date" eq_refl eq_refl) as [i [Hn [_ [Hnorm _]]]].
  exists i. split; [exact Hnorm|].
  destruct i as [|[|i]]; simpl in Hn; try discriminate. reflexivity.
Defined.

(** C5 (as stated) fails: of two columns whose clean names contain "date"
    only the first is parsed; the second keeps its text, the invalid date
    included. *)
Lemma second_date_column_counterexample :
  has_date (clean_name "Update Date") = true /\
  load_df_from_folder
    (mkFolder [Csv ["Date"; "Update Date"] [[CStr "31-02-2024"; CStr "31-02-2024"]]] []) =
  Ok (mkFrame ["date"; "update_date"] [DDatetime; DObject] [[CNaT; CStr "31-02-2024"]]).
Proof. split; reflexivity. Qed.

(** ** Loading a folder *)

Lemma labels_eqb_eq (a b : list string) : labels_eqb a b = true <-> a = b.
Proof.
  revert b; induction a as [|x a IH]; intros [|y b]; simpl; split;
    try discriminate; try reflexivity.
  - intros H; apply andb_prop in H as [Hx H].
    apply String.eqb_eq in Hx. apply IH in H. now subst.
  - intros H; injection H as -> ->. rewrite String.eqb_refl. now apply IH.
Qed.

Lemma mem_In (c : string) (l : list string) : mem c l = true <-> In c l.
Proof.
  unfold mem. rewrite existsb_exists. split.
  - intros [x [Hx E]]. apply String.eqb_eq in E. now subst.
  - intros H. exists c. split; [exact H | apply String.eqb_refl].
Qed.

Lemma In_unique_from (c : string) (seen l : list string) :
  In c l -> ~ In c seen -> In c (unique_from seen l).
Proof.
  revert seen; induction l as [|x l IH]; intros seen; simpl; [tauto|].
  intros [->|Hin] Hseen.
  - destruct (mem c seen) eqn:E; [apply mem_In in E; contradiction | now left].
  - destruct (mem x seen) eqn:E; [now apply IH|].
    destruct (String.eqb_spec x c) as [->|Hne]; [now left|].
    right. apply IH; [exact Hin|]. intros [H|H]; [contradiction | contradiction].
Qed.

Lemma unique_from_NoDup (seen l : list string) :
  NoDup l -> (forall c, In c l -> ~ In c seen) -> unique_from seen l = l.
Proof.
  intros Hnd; revert seen; induction Hnd as [|x l Hx Hnd IH]; intros seen Hseen; simpl;
    [reflexivity|].
  destruct (mem x seen) eqn:E.
  - apply mem_In in E. exfalso. apply (Hseen x); [now left | exact E].
  - f_equal. apply IH. intros c Hc [H|H].
    + subst c. contradiction.
    + apply (Hseen c); [now right | exact H].
Qed.

Lemma is_unique_NoDup (l : list string) : NoDup l -> is_unique l = true.
Proof.
  intros H. unfold is_unique, unique. rewrite (unique_from_NoDup [] l H).
  - apply Nat.eqb_refl.
  - intros c _ [].
Qed.

Lemma count_NoDup (c : string) (l : list string) :
  NoDup l -> In c l -> count c l = 1%nat.
Proof.
  unfold count. intros Hnd; induction Hnd as [|x l Hx Hnd IH]; simpl; [tauto|].
  intros [->|Hin].
  - rewrite String.eqb_refl. simpl. f_equal.
    assert (Hnone : forall l', ~ In c l' -> filter (String.eqb c) l' = []).
    { induction l' as [|y l' IH']; simpl; [reflexivity|]. intros Hn.
      destruct (String.eqb_spec c y) as [->|_]; [exfalso; apply Hn; now left|].
      apply IH'. intros H; apply Hn; now right. }
    now rewrite (Hnone l Hx).
  - destruct (String.eqb_spec c x) as [->|_]; [contradiction | now apply IH].
Qed.

Lemma lookup_map_self (f : string -> cell) (all : list string) (c : string) :
  In c all -> lookup all (map f all) c = f c.
Proof.
  unfold lookup. induction all as [|a all IH]; simpl; [tauto|].
  intros Hin. destruct (String.eqb_spec c a) as [->|Hne]; [reflexivity|].
  destruct Hin as [->|Hin]; [contradiction|].
  specialize (IH Hin). destruct (index_of c all) as [i|]; simpl; exact IH.
Qed.

Lemma lookup_self (cols : list string) (r : list cell) :
  NoDup cols -> List.length r = List.length cols -> map (lookup cols r) cols = r.
Proof.
  intros Hnd; revert r; induction Hnd as [|c cols Hc Hnd IH]; intros [|x r] Hlen;
    simpl in Hlen; try discriminate; [reflexivity|].
  simpl. unfold lookup at 1. simpl. rewrite String.eqb_refl. f_equal.
  rewrite <- (IH r) at 2 by lia. apply map_ext_in.
  intros c' Hc'. unfold lookup. simpl.
  destruct (String.eqb_spec c' c) as [->|_]; [contradiction|].
  destruct (index_of c' cols); reflexivity.
Qed.

Lemma index_of_In (c : string) (cols : list string) :
  In c cols -> exists i, index_of c cols = Some i.
Proof.
  induction cols as [|x cols IH]; simpl; [tauto|]. intros H.
  destruct (String.eqb_spec c x) as [->|Hne]; [now exists 0%nat|].
  destruct H as [->|H]; [contradiction|].
  destruct (IH H) as [i ->]. now exists (S i).
Qed.

Lemma index_of_not_In (c : string) (cols : list string) :
  ~ In c cols -> index_of c cols = None.
Proof.
  induction cols as [|x cols IH]; simpl; [reflexivity|]. intros H.
  destruct (String.eqb_spec c x) as [->|_]; [exfalso; apply H; now left|].
  rewrite IH; [reflexivity|]. intros Hin; apply H; now right.
Qed.

Lemma fetch_present (cols : list string) (r : list cell) (cd : string * dtype) :
  In (fst cd) cols -> fetch cols r cd = lookup cols r (fst cd).
Proof.
  intros H. unfold fetch, lookup. now destruct (index_of_In _ _ H) as [i ->].
Qed.

Lemma fetch_absent (cols : list string) (r : list cell) (cd : string * dtype) :
  ~ In (fst cd) cols -> fetch cols r cd = na_of (snd cd).
Proof. intros H. unfold fetch. now rewrite (index_of_not_In _ _ H). Qed.

Lemma map_fst_combine {A B : Type} (l : list A) (l' : list B) :
  List.length l' = List.length l -> map fst (combine l l') = l.
Proof.
  revert l'; induction l as [|x l IH]; intros [|y l'] H; simpl in *; try discriminate;
    [reflexivity|]. f_equal. apply IH. lia.
Qed.

Lemma map_snd_combine {A B : Type} (l : list A) (l' : list B) :
  List.length l' = List.length l -> map snd (combine l l') = l'.
Proof.
  revert l'; induction l as [|x l IH]; intros [|y l'] H; simpl in *; try discriminate;
    [reflexivity|]. f_equal. apply IH. lia.
Qed.

(** Laying a row out under labels that its frame has, in their order,
    gives the row back. *)
Lemma fetch_self (all : list (string * dtype)) (g : frame) (r : list cell) :
  NoDup (columns g) -> map fst all = columns g ->
  List.length r = List.length (columns g) ->
  map (fetch (columns g) r) all = r.
Proof.
  intros Hnd Hall Hlen.
  rewrite <- (lookup_self (columns g) r Hnd Hlen) at 2.
  rewrite <- Hall at 3. rewrite map_map. apply map_ext_in.
  intros cd Hcd. apply fetch_present. rewrite <- Hall. now apply in_map.
Qed.

(** The laid-out row holds, under a label of its frame, what the row
    holds there. *)
Lemma lookup_fetch (all : list (string * dtype)) (cols : list string) (r : list cell)
    (c : string) :
  In c (map fst all) -> In c cols ->
  lookup (map fst all) (map (fetch cols r) all) c = lookup cols r c.
Proof.
  intros Hall Hc. unfold lookup at 1.
  induction all as [|[a d] all IH]; simpl in *; [tauto|].
  destruct (String.eqb_spec c a) as [->|Hne]; [now apply fetch_present|].
  destruct Hall as [->|Hall]; [contradiction|]. specialize (IH Hall).
  destruct (index_of c (map fst all)) as [i|]; simpl; exact IH.
Qed.

(** Under a label that its frame lacks it holds the missing marker of
    the merged column. *)
Lemma lookup_fetch_gap (all : list (string * dtype)) (cols : list string) (r : list cell)
    (c : string) (i : nat) (dt : dtype) :
  index_of c (map fst all) = Some i -> nth_error (map snd all) i = Some dt ->
  ~ In c cols ->
  lookup (map fst all) (map (fetch cols r) all) c = na_of dt.
Proof.
  intros Hi Hdt Hc. unfold lookup. rewrite Hi. clear - Hi Hdt Hc.
  revert i Hi Hdt; induction all as [|[a d] all IH]; intros i Hi Hdt; simpl in *;
    [discriminate|].
  destruct (String.eqb_spec c a) as [->|Hne].
  - injection Hi as <-. simpl in *. injection Hdt as ->. now apply fetch_absent.
  - destruct (index_of c (map fst all)) as [j|]; [|discriminate].
    injection Hi as <-. simpl in *. now apply IH.
Qed.

Lemma length_as_datetime (i : nat) (dts : list dtype) :
  List.length (as_datetime i dts) = List.length dts.
Proof. apply length_update_at. Qed.

Lemma length_infer_all (header : list string) (body : list (list cell)) :
  List.length (infer_all header body) = List.length header.
Proof. unfold infer_all. now rewrite length_map, length_seq. Qed.

Lemma load_file_proper (header : list string) (body : list (list cell)) :
  proper (Csv header body) ->
  exists g, load_file (Csv header body) = Ok g /\ tidy g /\ typed g /\
            List.length (rows g) = List.length body.
Proof.
  intros [Hnd Hlen]. unfold load_file, read_csv, bind, normalize. simpl.
  destruct (date_col (map clean_name header)) as [c|] eqn:Hcol.
  - destruct (date_col_position _ _ Hcol) as [Hc [i [Hi [Hn _]]]].
    rewrite (has_date_not_empty c Hc).
    rewrite (count_NoDup c _ Hnd (nth_error_In _ _ Hn)), Hi. simpl.
    eexists; split; [reflexivity|]. split; [split; [exact Hnd|] | split].
    + unfold rectangular; simpl. rewrite Forall_map, length_map.
      revert Hlen; apply Forall_impl. intros r Hr. now rewrite length_update_at.
    + unfold typed; simpl. now rewrite length_as_datetime, length_infer_all, length_map.
    + apply length_map.
  - eexists; split; [reflexivity|]. split; [split; [exact Hnd|] | split].
    + unfold rectangular; simpl. now rewrite length_map.
    + unfold typed; simpl. now rewrite length_infer_all, length_map.
    + reflexivity.
Qed.

Lemma read_all_proper (files : list file) :
  Forall proper files ->
  Forall2 (fun f g => load_file f = Ok g) (filter readable files) (read_all files) /\
  Forall tidy (read_all files) /\
  list_sum (map (fun g => List.length (rows g)) (read_all files)) =
  List.length (flat_map body_of files).
Proof.
  induction 1 as [|f files Hf Hfs [IH1 [IH2 IH3]]]; simpl; [repeat constructor|].
  destruct f as [|header body]; simpl; [repeat split; assumption|].
  destruct (load_file_proper header body Hf) as [g [Hg [Ht [_ Hl]]]].
  rewrite Hg. simpl. repeat split.
  - constructor; assumption.
  - constructor; assumption.
  - rewrite length_app, IH3, Hl. reflexivity.
Qed.


Lemma align_tidy (all : list (string * dtype)) (g : frame) :
  tidy g -> align all g = Ok (reindex all g).
Proof.
  intros [Hnd Hrect]. unfold align.
  destruct (labels_eqb (columns g) (map fst all)) eqn:E.
  - apply labels_eqb_eq in E. f_equal. unfold reindex.
    rewrite <- (map_id (rows g)) at 1. apply map_ext_in.
    intros r Hr. symmetry. apply fetch_self; [exact Hnd | now symmetry |].
    unfold rectangular in Hrect. rewrite Forall_forall in Hrect. now apply Hrect.
  - now rewrite (is_unique_NoDup _ Hnd).
Qed.

Lemma align_all_tidy (all : list (string * dtype)) (dfs : list frame) :
  Forall tidy dfs -> align_all all dfs = Ok (flat_map (reindex all) dfs).
Proof.
  induction 1 as [|g dfs Hg Hdfs IH]; simpl; [reflexivity|].
  now rewrite (align_tidy all g Hg), IH.
Qed.


Lemma combined_columns_incl (dfs : list frame) (g : frame) (c : string) :
  In g dfs -> In c (columns g) -> In c (combined_columns dfs).
Proof.
  intros Hg Hc. unfold combined_columns.
  destruct dfs as [|df rest]; [destruct Hg|].
  destruct (all_same (df :: rest)) eqn:E.
  - destruct Hg as [->|Hg]; [exact Hc|].
    simpl in E. rewrite forallb_forall in E.
    specialize (E g Hg). apply labels_eqb_eq in E. now rewrite <- E.
  - apply In_unique_from; [|intros []].
    apply in_concat. exists (columns g). split; [|exact Hc].
    apply in_map. exact Hg.
Qed.

Lemma length_combined_dtypes (dfs : list frame) :
  List.length (combined_dtypes dfs) = List.length (combined_columns dfs).
Proof.
  unfold combined_dtypes, combined_columns. destruct dfs as [|df rest]; [reflexivity|].
  destruct (all_same (df :: rest)); rewrite length_map; [apply length_seq | reflexivity].
Qed.




(** The three valid files and the corrupt one, merged: a file without a
    date column gets the missing date, the other gaps the missing
    number. *)
Example three_valid_one_corrupt_loaded :
  load_df_from_folder (mkFolder three_valid_one_corrupt []) =
  Ok (mkFrame ["state"; "date"; "age_0_5"; "district"]
              [DObject; DDatetime; DFloat64; DObject]
              [ [CStr "X"; CDate (mkDate 2024 3 1); CInt 10; CNaN];
                [CStr "Y"; CNaT; CInt 3; CNaN];
                [CStr "Z"; CDate (mkDate 2024 3 2); CNaN; CNaN];
                [CStr "X"; CNaT; CNaN; CStr "A"] ]).
Proof. reflexivity. Qed.

(** ** 64-bit sums *)

Module Int64Facts.

Import Int64.

Local Open Scope Z_scope.

Lemma wrap_add_l (a b : Z) : wrap (wrap a + b) = wrap (a + b).
Proof.
  unfold wrap. f_equal.
  replace ((a + 2 ^ 63) mod 2 ^ 64 - 2 ^ 63 + b + 2 ^ 63)
    with ((a + 2 ^ 63) mod 2 ^ 64 + b) by ring.
  rewrite Zplus_mod_idemp_l. f_equal. ring.
Qed.

Lemma wrap_add_r (a b : Z) : wrap (a + wrap b) = wrap (a + b).
Proof. rewrite (Z.add_comm a (wrap b)), wrap_add_l. f_equal. ring. Qed.

Lemma wrap_in_range (z : Z) : in_range (wrap z).
Proof.
  unfold in_range, wrap.
  pose proof (Z.mod_pos_bound (z + 2 ^ 63) (2 ^ 64) ltac:(lia)). lia.
Qed.

Lemma wrap_small (z : Z) : in_range z -> wrap z = z.
Proof.
  unfold in_range, wrap. intros H. rewrite Z.mod_small by lia. ring.
Qed.

Lemma fold_add_wrap (l : list Z) (a : Z) :
  fold_left add l (wrap a) = wrap (a + exact_sum l).
Proof.
  revert a; induction l as [|x l IH]; intros a; simpl.
  - f_equal. ring.
  - unfold add at 2. rewrite wrap_add_l, IH. f_equal. ring.
Qed.

(** The machine sum is the exact sum, wrapped once. *)
Lemma sum_wrap (l : list Z) : sum l = wrap (exact_sum l).
Proof.
  unfold sum. change 0 with (wrap 0) at 1. now rewrite fold_add_wrap.
Qed.

Lemma exact_sum_app (l1 l2 : list Z) :
  exact_sum (l1 ++ l2) = exact_sum l1 + exact_sum l2.
Proof. induction l1 as [|x l1 IH]; simpl; [reflexivity | rewrite IH; ring]. Qed.

Lemma exact_sum_perm (l1 l2 : list Z) :
  Permutation l1 l2 -> exact_sum l1 = exact_sum l2.
Proof. induction 1; simpl; lia. Qed.

(** Summing the sums of the parts is summing the whole. *)
Lemma sum_of_sums {R : Type} (col : R -> Z) (parts : list (list R)) :
  sum (map (fun g => sum (map col g)) parts) = sum (map col (List.concat parts)).
Proof.
  rewrite !sum_wrap. induction parts as [|g parts IH]; simpl; [reflexivity|].
  rewrite map_app, exact_sum_app, sum_wrap, wrap_add_l.
  rewrite <- wrap_add_r, IH, wrap_add_r. reflexivity.
Qed.

Lemma sum_perm (l1 l2 : list Z) : Permutation l1 l2 -> sum l1 = sum l2.
Proof. intros H. rewrite !sum_wrap. now rewrite (exact_sum_perm _ _ H). Qed.

End Int64Facts.

(** ** Grouping *)

Module GroupByFacts.

Import GroupBy.

Section Facts.

Context {R K : Type}.
Variable cmp : K -> K -> comparison.
Variable key : R -> option K.

Local Abbreviation groups := (list (K * list R)) (only parsing).
Local Abbreviation members gs := (List.concat (map snd gs)) (only parsing).
Local Abbreviation keys gs := (map fst gs) (only parsing).

(** Adding a row to the groups adds it to their members, whatever the
    order of the keys is. *)
Lemma add_to_group_members (k : K) (r : R) (gs : groups) :
  Permutation (members (add_to_group cmp k r gs)) (r :: members gs).
Proof.
  induction gs as [|[k' g] gs IH]; simpl; [reflexivity|].
  destruct (cmp k k'); simpl.
  - rewrite <- app_assoc. simpl. symmetry. apply Permutation_middle.
  - reflexivity.
  - rewrite IH. symmetry. apply Permutation_middle.
Qed.

Lemma fold_step_members (rows : list R) (acc : groups) :
  Permutation (members (fold_left (step cmp key) rows acc))
              (members acc ++ keyed key rows).
Proof.
  revert acc; induction rows as [|r rows IH]; intros acc; simpl.
  - now rewrite app_nil_r.
  - rewrite IH. unfold step. destruct (key r) as [k|]; [|reflexivity].
    rewrite add_to_group_members. simpl. apply Permutation_middle.
Qed.

Lemma groupby_members (rows : list R) :
  Permutation (members (groupby cmp key rows)) (keyed key rows).
Proof. unfold groupby. now rewrite fold_step_members. Qed.

Context {laws : OrderLaws cmp}.

Lemma cmp_refl (a : K) : cmp a a = Eq.
Proof. now apply cmp_eq. Qed.

Lemma cmp_gt_lt (a b : K) : cmp a b = Gt -> cmp b a = Lt.
Proof. intros H. rewrite (cmp_antisym a b), H. reflexivity. Qed.

Lemma add_to_group_well_grouped (k : K) (r : R) (gs : groups) :
  key r = Some k -> well_grouped key gs -> well_grouped key (add_to_group cmp k r gs).
Proof.
  intros Hk. unfold well_grouped.
  induction 1 as [|[k' g] gs [Hne Hg] Hgs IH]; simpl.
  - repeat constructor; [discriminate | exact Hk].
  - destruct (cmp k k') eqn:E.
    + apply cmp_eq in E. subst k'. constructor; [|exact Hgs]. simpl in *. split.
      * intros H. now apply app_eq_nil in H as [_ H].
      * apply Forall_app. split; [exact Hg | now constructor].
    + constructor; [split; simpl; [discriminate | now constructor]|].
      constructor; [split; assumption | exact Hgs].
    + constructor; [split; assumption | exact IH].
Qed.

Lemma add_to_group_keys (k : K) (r : R) (gs : groups) (x : K) :
  In x (keys (add_to_group cmp k r gs)) -> x = k \/ In x (keys gs).
Proof.
  induction gs as [|[k' g] gs IH]; simpl.
  - intros [H|[]]; now left.
  - destruct (cmp k k'); simpl.
    + tauto.
    + intros [H|[H|H]]; auto.
    + intros [H|H]; [auto|]. destruct (IH H); auto.
Qed.

Lemma add_to_group_ascending (k : K) (r : R) (gs : groups) :
  ascending cmp gs -> ascending cmp (add_to_group cmp k r gs).
Proof.
  unfold ascending. induction gs as [|[k' g] gs IH]; simpl; intros Hs.
  - repeat constructor.
  - apply StronglySorted_inv in Hs as [Hs Hall].
    destruct (cmp k k') eqn:E; simpl.
    + constructor; assumption.
    + constructor; [constructor; assumption|].
      constructor; [exact E|].
      revert Hall; apply Forall_impl. intros x Hx. now apply (cmp_trans k k' x).
    + constructor; [now apply IH|].
      rewrite Forall_forall in *. intros x Hx.
      destruct (add_to_group_keys k r gs x Hx) as [->|Hin].
      * now apply cmp_gt_lt.
      * now apply Hall.
Qed.

Lemma fold_step_invariants (rows : list R) (acc : groups) :
  well_grouped key acc -> ascending cmp acc ->
  well_grouped key (fold_left (step cmp key) rows acc) /\
  ascending cmp (fold_left (step cmp key) rows acc).
Proof.
  revert acc; induction rows as [|r rows IH]; intros acc Hw Ha; simpl; [now split|].
  apply IH; unfold step; destruct (key r) as [k|] eqn:Hk; try assumption.
  - now apply add_to_group_well_grouped.
  - now apply add_to_group_ascending.
Qed.

Lemma groupby_invariants (rows : list R) :
  well_grouped key (groupby cmp key rows) /\ ascending cmp (groupby cmp key rows).
Proof. apply fold_step_invariants; constructor. Qed.

Lemma ascending_NoDup (gs : groups) : ascending cmp gs -> NoDup (keys gs).
Proof.
  unfold ascending. induction 1 as [|k ks Hs IH Hall]; constructor; [|exact IH].
  intros Hin. rewrite Forall_forall in Hall. specialize (Hall k Hin).
  rewrite cmp_refl in Hall. discriminate.
Qed.

(** Every key of the output is the key of some input row. *)
Lemma groupby_keys_from_rows (rows : list R) (k : K) :
  In k (keys (groupby cmp key rows)) -> In (Some k) (key_tuples key rows).
Proof.
  intros Hin. apply in_map_iff in Hin as [[k' g] [Hk Hin]]. simpl in Hk; subst k'.
  destruct (groupby_invariants rows) as [Hw _]. unfold well_grouped in Hw.
  rewrite Forall_forall in Hw. destruct (Hw _ Hin) as [Hne Hg]. simpl in *.
  destruct g as [|r g]; [contradiction|].
  apply Forall_inv in Hg. rewrite <- Hg. unfold key_tuples. apply in_map.
  assert (Hmem : In r (members (groupby cmp key rows))).
  { apply in_concat. exists (r :: g). split; [|now left].
    apply in_map_iff. exists (k, r :: g). now split. }
  apply (Permutation_in _ (groupby_members rows)) in Hmem.
  unfold keyed in Hmem. now apply filter_In in Hmem as [Hmem _].
Qed.

Lemma same_key_eq (a b : option K) : same_key cmp a b = true <-> a = b.
Proof.
  destruct a as [x|], b as [y|]; simpl; try (split; [discriminate | discriminate]);
    [|tauto].
  destruct (cmp x y) eqn:E; split; try discriminate; try reflexivity.
  - intros _. apply cmp_eq in E. now subst.
  - intros H; injection H as ->. rewrite cmp_refl in E. discriminate.
  - intros H; injection H as ->. rewrite cmp_refl in E. discriminate.
Qed.



End Facts.

End GroupByFacts.

(** ** The orders of the key columns *)

Module Orders.

Import GroupBy.

#[export] Instance string_order : OrderLaws String.compare.
Proof.
  split.
  - exact String_as_OT.cmp_eq.
  - intros a b. exact (String_as_OT.cmp_antisym b a).
  - intros a b c Hab Hbc.
    apply String_as_OT.cmp_lt in Hab, Hbc. apply String_as_OT.cmp_lt.
    exact (String_as_OT.lt_trans a b c Hab Hbc).
Qed.

Ltac by_cases_on_Z :=
  repeat match goal with
         | |- context [Z.compare ?x ?y] => destruct (Z.compare_spec x y)
         | H : context [Z.compare ?x ?y] |- _ => destruct (Z.compare_spec x y)
         end;
  try discriminate; try reflexivity; try lia.

#[export] Instance date_order : OrderLaws Dates.compare.
Proof.
  split.
  - intros [y m d] [y' m' d']; unfold Dates.compare; simpl; split.
    + intros H.
      destruct (Z.compare_spec y y'); try discriminate.
      destruct (Z.compare_spec m m'); try discriminate.
      destruct (Z.compare_spec d d'); try discriminate.
      now subst.
    + intros H; injection H as -> -> ->. now rewrite !Z.compare_refl.
  - intros [y m d] [y' m' d']; unfold Dates.compare; simpl. by_cases_on_Z.
  - intros [y m d] [y' m' d'] [y'' m'' d'']; unfold Dates.compare; simpl.
    intros H1 H2; by_cases_on_Z.
Qed.

#[export] Instance pair_order {A B : Type} (ca : A -> A -> comparison)
    (cb : B -> B -> comparison) (la : OrderLaws ca) (lb : OrderLaws cb)
    : OrderLaws (cmp_pair ca cb).
Proof.
  split.
  - intros [a b] [a' b']; unfold cmp_pair; simpl; split.
    + destruct (ca a a') eqn:Ea; try discriminate.
      intros Eb. apply cmp_eq in Ea, Eb. now subst.
    + intros H; injection H as -> ->.
      rewrite (proj2 (cmp_eq a' a') eq_refl). now apply cmp_eq.
  - intros [a b] [a' b']; unfold cmp_pair; simpl.
    rewrite (cmp_antisym a a'). destruct (ca a a'); simpl; try reflexivity.
    apply cmp_antisym.
  - intros [a b] [a' b'] [a'' b'']; unfold cmp_pair; simpl.
    destruct (ca a a') eqn:E1; try discriminate;
      destruct (ca a' a'') eqn:E2; try discriminate; intros H1 H2.
    + apply cmp_eq in E1, E2. subst. rewrite (proj2 (cmp_eq a'' a'') eq_refl).
      exact (cmp_trans b b' b'' H1 H2).
    + apply cmp_eq in E1. subst. now rewrite E2.
    + apply cmp_eq in E2. subst. now rewrite E1.
    + now rewrite (cmp_trans a a' a'' E1 E2).
Qed.

End Orders.

(** ** Grouped sums *)

Import GroupBy Data Backend.

(** C2 (as amended).  For every dataset and every choice of key columns,
    grouping puts every row whose key values are all present into one
    group, the group of its key: the members of the groups are the rows
    with a key, each as often as it occurs in the input, the keys of the
    groups are pairwise different, and no group is empty.  A row with a
    missing key value is a member of no group. *)
Theorem groupby_partitions_keyed_rows {R K : Type} (cmp : K -> K -> comparison)
    (key : R -> option K) (rows : list R) :
  OrderLaws cmp ->
  Permutation (List.concat (map snd (groupby cmp key rows))) (keyed key rows) /\
  NoDup (map fst (groupby cmp key rows)) /\
  Forall (fun kg => snd kg <> [] /\ Forall (fun r => key r = Some (fst kg)) (snd kg))
         (groupby cmp key rows) /\
  (forall r kg, key r = None -> In kg (groupby cmp key rows) -> ~ In r (snd kg)).
Proof.
  intros laws.
  destruct (GroupByFacts.groupby_invariants cmp key rows) as [Hw Ha].
  split; [apply GroupByFacts.groupby_members|].
  split; [exact (GroupByFacts.ascending_NoDup cmp _ Ha)|].
  split; [exact Hw|].
  intros r kg Hnone Hkg Hin.
  unfold well_grouped in Hw. rewrite Forall_forall in Hw.
  destruct (Hw kg Hkg) as [_ Hg]. rewrite Forall_forall in Hg.
  rewrite (Hg r Hin) in Hnone. discriminate.
Qed.

Lemma groupby_partitions_keyed_rows_witness :
  let rows := [ mkEnrolment None (Some "X") (Some "A") 10 5 20;
                mkEnrolment None None (Some "C") 7 7 7;
                mkEnrolment None (Some "X") (Some "B") 3 2 1 ] in
  Permutation (List.concat (map snd (groupby String.compare state rows)))
              [ mkEnrolment None (Some "X") (Some "A") 10 5 20;
                mkEnrolment None (Some "X") (Some "B") 3 2 1 ] /\
  NoDup (map fst (groupby String.compare state rows)).
Proof.
  intro rows.
  destruct (groupby_partitions_keyed_rows String.compare state rows Orders.string_order)
    as [Hperm [Hnd _]].
  split; [exact Hperm | exact Hnd].
Defined.

(** C2 (as stated) fails: a row whose date did not parse and whose state
    is missing is in no group of the by-date trends, and the by-state
    summary has no group for the missing state. *)
Lemma missing_key_rows_dropped_counterexample :
  let r := mkEnrolment None None (Some "A") 1 2 3 in
  get_trends (Table [r]) = Ok [] /\
  get_state_summary (Table [r]) NoColumns = Ok (mkSummary (Some []) None).
Proof. split; reflexivity. Qed.

Lemma keyed_all {R K : Type} (key : R -> option K) (rows : list R) :
  (forall r, In r rows -> key r <> None) -> keyed key rows = rows.
Proof.
  unfold keyed. induction rows as [|r rows IH]; simpl; intros H; [reflexivity|].
  destruct (key r) eqn:E.
  - f_equal. apply IH. intros r' Hr'. apply H. now right.
  - exfalso. apply (H r); [now left | exact E].
Qed.

Lemma group_sum_total {R K : Type} (cmp : K -> K -> comparison)
    (key : R -> option K) (col : R -> Z) (rows : list R) :
  Int64.sum (map snd (group_sum cmp key col rows)) = Int64.sum (map col (keyed key rows)).
Proof.
  unfold group_sum. rewrite map_map. simpl.
  rewrite <- (map_map snd (fun g => Int64.sum (map col g))).
  rewrite Int64Facts.sum_of_sums.
  apply Int64Facts.sum_perm, Permutation_map, GroupByFacts.groupby_members.
Qed.




(** The example of the specification: two districts of one state. *)
Example state_summary_example :
  enrolment_by_state [ mkEnrolment None (Some "X") (Some "A") 10 5 20;
                       mkEnrolment None (Some "X") (Some "B") 3 2 1 ] =
  [ mkEnrolmentByState "X" 13 7 21 41 ].
Proof. reflexivity. Qed.

(** ** Doubles made from integers *)

Module Float64Facts.

Import Float64.

Local Open Scope Z_scope.

Lemma shr_1_m (mrs : shr_record) :
  0 <= shr_m mrs -> shr_m (shr_1 mrs) = shr_m mrs / 2.
Proof.
  destruct mrs as [m r s]; simpl. rewrite <- Z.div2_div.
  destruct m as [|[p|p|]|p]; simpl; try reflexivity; lia.
Qed.

(** Shifting right by [n] places divides the mantissa by [2 ^ n]. *)
Lemma iter_pos_shr_m (n : positive) (mrs : shr_record) :
  0 <= shr_m mrs -> shr_m (iter_pos shr_1 n mrs) = shr_m mrs / 2 ^ Zpos n.
Proof.
  revert mrs; induction n as [n IH|n IH|]; intros mrs Hm; cbn [iter_pos].
  - assert (H1 : 0 <= shr_m (shr_1 mrs)) by (rewrite shr_1_m by lia; apply Z.div_pos; lia).
    assert (H2 : 0 <= shr_m (iter_pos shr_1 n (shr_1 mrs)))
      by (rewrite IH by lia; apply Z.div_pos; [lia | apply Z.pow_pos_nonneg; lia]).
    rewrite IH, IH, shr_1_m by lia.
    pose proof (Z.pow_pos_nonneg 2 (Zpos n) ltac:(lia) ltac:(lia)).
    rewrite !Z.div_div by lia.
    f_equal. rewrite (Pos2Z.inj_xI n).
    replace (2 * Z.pos n + 1) with (1 + Z.pos n + Z.pos n) by lia.
    rewrite !Z.pow_add_r by lia. change (2 ^ 1) with 2. ring.
  - assert (H2 : 0 <= shr_m (iter_pos shr_1 n mrs))
      by (rewrite IH by lia; apply Z.div_pos; [lia | apply Z.pow_pos_nonneg; lia]).
    rewrite IH, IH by lia.
    pose proof (Z.pow_pos_nonneg 2 (Zpos n) ltac:(lia) ltac:(lia)).
    rewrite !Z.div_div by lia.
    f_equal. rewrite (Pos2Z.inj_xO n).
    replace (2 * Z.pos n) with (Z.pos n + Z.pos n) by lia.
    rewrite Z.pow_add_r by lia. reflexivity.
  - rewrite shr_1_m by lia. reflexivity.
Qed.

Lemma digits2_pos_lower (p : positive) : 2 ^ (Zpos (digits2_pos p) - 1) <= Zpos p.
Proof.
  induction p as [p IH|p IH|]; cbn [digits2_pos].
  - rewrite Pos2Z.inj_succ.
    replace (Z.succ (Zpos (digits2_pos p)) - 1) with (1 + (Zpos (digits2_pos p) - 1)) by lia.
    rewrite Z.pow_add_r by lia. change (2 ^ 1) with 2. lia.
  - rewrite Pos2Z.inj_succ.
    replace (Z.succ (Zpos (digits2_pos p)) - 1) with (1 + (Zpos (digits2_pos p) - 1)) by lia.
    rewrite Z.pow_add_r by lia. change (2 ^ 1) with 2. lia.
  - reflexivity.
Qed.

Lemma fexp_lower (e : Z) : -1074 <= fexp prec emax e.
Proof. unfold fexp, emin, prec, emax. lia. Qed.

(** The shift to the canonical exponent drops fewer places than the
    mantissa has digits: the mantissa stays positive. *)
Lemma shr_fexp_positive (p : positive) (e : Z) (l : location) :
  -1074 <= e ->
  0 < shr_m (fst (shr_fexp prec emax (Zpos p) e l)) /\
  e <= snd (shr_fexp prec emax (Zpos p) e l).
Proof.
  intros He. unfold shr_fexp, shr.
  set (d := Zdigits2 (Zpos p)).
  assert (Hd : 1 <= d) by (unfold d; simpl; lia).
  assert (Hrec : shr_m (shr_record_of_loc (Zpos p) l) = Zpos p)
    by (destruct l as [|[]]; reflexivity).
  destruct (fexp prec emax (d + e) - e) as [|n|n] eqn:En; simpl fst; simpl snd.
  - rewrite Hrec. lia.
  - rewrite iter_pos_shr_m by (rewrite Hrec; lia). rewrite Hrec. split; [|lia].
    apply Z.div_str_pos. split; [apply Z.pow_pos_nonneg; lia|].
    transitivity (2 ^ (d - 1)); [|apply digits2_pos_lower].
    apply Z.pow_le_mono_r; [lia|].
    unfold fexp, emin, prec, emax in En. lia.
  - rewrite Hrec. lia.
Qed.

Lemma round_nearest_even_positive (m : Z) (l : location) :
  0 < m -> 0 < round_nearest_even m l.
Proof.
  intros H. destruct l as [|[]]; simpl; try lia. destruct (Z.even m); lia.
Qed.

Lemma binary_round_aux_positive (s : bool) (p : positive) (e : Z) (l : location) :
  -1074 <= e ->
  (exists m e', binary_round_aux prec emax s (Zpos p) e l = S754_finite s m e') \/
  binary_round_aux prec emax s (Zpos p) e l = S754_infinity s.
Proof.
  intros He. unfold binary_round_aux.
  destruct (shr_fexp_positive p e l He) as [H1 H1e].
  destruct (shr_fexp prec emax (Zpos p) e l) as [mrs' e'] eqn:E1. simpl in H1, H1e.
  pose proof (round_nearest_even_positive (shr_m mrs') (loc_of_shr_record mrs') H1) as Hr.
  destruct (round_nearest_even (shr_m mrs') (loc_of_shr_record mrs')) as [|q|q] eqn:Eq;
    try lia.
  destruct (shr_fexp_positive q e' loc_Exact ltac:(lia)) as [H2 _].
  destruct (shr_fexp prec emax (Zpos q) e' loc_Exact) as [mrs'' e''] eqn:E2. simpl in H2.
  destruct (shr_m mrs'') as [|m|m]; try lia.
  destruct (e'' <=? emax - prec); [left; eauto | now right].
Qed.

Lemma binary_round_positive (s : bool) (p : positive) :
  (exists m e', binary_round prec emax s p 0 = S754_finite s m e') \/
  binary_round prec emax s p 0 = S754_infinity s.
Proof.
  unfold binary_round.
  destruct (shl_align p 0 (fexp prec emax (Zpos (digits2_pos p) + 0))) as [mz ez] eqn:E.
  apply binary_round_aux_positive.
  unfold shl_align in E.
  destruct (fexp prec emax (Zpos (digits2_pos p) + 0) - 0) eqn:E';
    injection E as <- <-; try lia.
  apply fexp_lower.
Qed.

(** The double made from a non-zero integer is a non-zero number or an
    infinity, with the sign of the integer. *)
Lemma of_Z_nonzero (z : Z) :
  z <> 0 ->
  (exists m e, of_Z z = S754_finite (z <? 0) m e) \/ of_Z z = S754_infinity (z <? 0).
Proof.
  intros Hz. unfold of_Z, binary_normalize. destruct z as [|p|p]; [contradiction| |].
  - apply binary_round_positive.
  - apply binary_round_positive.
Qed.

(** Division by zero and the scaling to per cent. *)
Lemma div_zero_scaled (x : spec_float) (s : bool) :
  ((exists m e, x = S754_finite s m e) \/ x = S754_infinity s) ->
  mul (div x (of_Z 0)) (of_Z 100) = S754_infinity s.
Proof.
  intros [[m [e ->]] | ->]; cbv [div SFdiv of_Z binary_normalize]; simpl;
    now destruct s.
Qed.

End Float64Facts.

(** ** Coverage *)

Import Frontend.

Lemma In_merge_inner (enr_agg bio_agg : list (string * Z)) (s : string) (e b : Z) :
  In (s, e, b) (merge_inner enr_agg bio_agg) <-> In (s, e) enr_agg /\ In (s, b) bio_agg.
Proof.
  unfold merge_inner. rewrite in_flat_map. split.
  - intros [[s1 e1] [He Hin]]. apply in_map_iff in Hin as [[s2 b2] [Heq Hb]].
    apply filter_In in Hb as [Hb Hs]. simpl in *. apply String.eqb_eq in Hs.
    injection Heq as -> -> ->. subst. now split.
  - intros [He Hb]. exists (s, e). split; [exact He|].
    apply in_map_iff. exists (s, b). split; [reflexivity|].
    apply filter_In. split; [exact Hb | apply String.eqb_refl].
Qed.

(** C1 (as amended).  Every row of [pendingAndCoverage] joins a state of
    the enrolment aggregate with the same state of the biometric
    aggregate, and its coverage is the double-precision quotient of the
    two totals times one hundred, computed without any error.  When the
    enrolment total is zero this is [NaN] if the biometric total is zero
    as well, and otherwise an infinity with the sign of the biometric
    total: in no case zero. *)
Theorem coverage_pct_of_joined_rows (enr_agg bio_agg : list (string * Z)) (row : CoverageRow) :
  In row (pendingAndCoverage enr_agg bio_agg) ->
  In (cov_state row, enrolment_total row) enr_agg /\
  In (cov_state row, biometric_total row) bio_agg /\
  coverage_pct row =
    Float64.mul (Float64.div (Float64.of_Z (biometric_total row))
                             (Float64.of_Z (enrolment_total row)))
                (Float64.of_Z 100) /\
  (enrolment_total row = 0%Z ->
     (biometric_total row = 0%Z -> coverage_pct row = S754_nan) /\
     (biometric_total row <> 0%Z ->
        coverage_pct row = S754_infinity (biometric_total row <? 0)%Z) /\
     Float64.is_zero (coverage_pct row) = false).
Proof.
  intros Hin. unfold pendingAndCoverage in Hin.
  apply in_map_iff in Hin as [[[s e] b] [<- Hm]]. simpl.
  apply In_merge_inner in Hm as [He Hb].
  split; [exact He|]. split; [exact Hb|]. split; [reflexivity|].
  intros ->. unfold coverage.
  assert (Hinf : b <> 0%Z ->
            Float64.mul (Float64.div (Float64.of_Z b) (Float64.of_Z 0)) (Float64.of_Z 100) =
            S754_infinity (b <? 0)%Z).
  { intros Hb0. apply Float64Facts.div_zero_scaled, Float64Facts.of_Z_nonzero, Hb0. }
  split; [intros ->; reflexivity|]. split; [exact Hinf|].
  destruct (Z.eq_dec b 0) as [->|Hb0]; [reflexivity|].
  now rewrite (Hinf Hb0).
Qed.

Lemma coverage_pct_of_joined_rows_witness :
  coverage_pct (coverage_row "Y" 0 0) = S754_nan /\
  Float64.is_zero (coverage_pct (coverage_row "Y" 0 0)) = false.
Proof.
  destruct (coverage_pct_of_joined_rows [("X", 100%Z); ("Y", 0%Z)] [("Y", 0%Z); ("X", 80%Z)]
              (coverage_row "Y" 0 0)) as [_ [_ [_ H]]].
  - simpl. right. left. reflexivity.
  - destruct (H eq_refl) as [Hnan [_ Hz]]. split; [exact (Hnan eq_refl) | exact Hz].
Defined.

(** C1 (as stated) fails: with no enrolment and eighty biometric captures
    the coverage is plus infinity, which is not the undefined marker. *)
Lemma coverage_zero_denominator_counterexample :
  pendingAndCoverage [("X", 0%Z)] [("X", 80%Z)] =
    [mkCoverageRow "X" 0 80 (-80) (S754_infinity false)] /\
  Float64.is_nan (S754_infinity false) = false.
Proof. split; reflexivity. Qed.

(** The example of the specification: eighty captures for a hundred
    enrolments. *)
Example coverage_example :
  pendingAndCoverage [("X", 100%Z)] [("X", 80%Z)] =
    [mkCoverageRow "X" 100 80 20 (Float64.of_Z 80)].
Proof. reflexivity. Qed.

(** ** The queries on an empty dataset *)

Lemma total_of_empty {R : Type} (name : string) (field : R -> Z) (df : dataset R) :
  empty df = true -> total_of name field df = Ok 0%Z.
Proof. unfold total_of. now intros ->. Qed.

Lemma total_of_ok {R : Type} (name : string) (field : R -> Z) (df : dataset R) :
  exists z, total_of name field df = Ok z.
Proof.
  unfold total_of. destruct df as [|[|r rows]]; simpl; eauto.
Qed.

Lemma len_empty {R : Type} (df : dataset R) : empty df = true -> len df = 0%Z.
Proof. destruct df as [|[|r rows]]; simpl; try reflexivity; discriminate. Qed.

(** C9.  No query fails, whatever is loaded, and each answers an empty
    dataset with nothing: [/stats] with a record count and totals of zero
    for that category, the state summary without an entry for it, the
    trends and the district rankings, for every state filter and every
    sort, with the empty list. *)
Theorem queries_on_empty_dataset :
  (forall e d b, exists st,
      get_stats e d b = Ok st /\
      (empty e = true -> enrolment_stats st = mkEnrolmentStats 0 0 0 0) /\
      (empty d = true -> demographic_stats st = (0%Z, 0%Z)) /\
      (empty b = true -> biometric_stats st = (0%Z, 0%Z))) /\
  (forall e b, exists s,
      get_state_summary e b = Ok s /\
      (empty e = true -> summary_enrolment s = None) /\
      (empty b = true -> summary_biometric s = None)) /\
  (forall e, empty e = true -> get_trends e = Ok []) /\
  (forall sort_values e st, empty e = true -> get_district_rankings sort_values e st = Ok []).
Proof.
  split; [|split; [|split]].
  - intros e d b. unfold get_stats.
    destruct (total_of_ok "age_0_5" age_0_5 e) as [x1 H1].
    destruct (total_of_ok "age_5_17" age_5_17 e) as [x2 H2].
    destruct (total_of_ok "age_18_greater" age_18_greater e) as [x3 H3].
    destruct (total_of_ok "demo_age_5_17" demo_age_5_17 d) as [x4 H4].
    destruct (total_of_ok "bio_age_5_17" bio_age_5_17 b) as [x5 H5].
    rewrite H1, H2, H3, H4, H5. simpl.
    eexists; split; [reflexivity|]. simpl. split; [|split].
    + intros He. rewrite (total_of_empty _ _ _ He) in H1.
      rewrite (total_of_empty _ _ _ He) in H2. rewrite (total_of_empty _ _ _ He) in H3.
      injection H1 as <-; injection H2 as <-; injection H3 as <-.
      now rewrite (len_empty e He).
    + intros Hd. rewrite (total_of_empty _ _ _ Hd) in H4. injection H4 as <-.
      now rewrite (len_empty d Hd).
    + intros Hb. rewrite (total_of_empty _ _ _ Hb) in H5. injection H5 as <-.
      now rewrite (len_empty b Hb).
  - intros e b. unfold get_state_summary.
    destruct e as [|[|r rows]], b as [|[|r' rows']]; simpl;
      eexists; (split; [reflexivity|]); simpl; split; intros H;
      try reflexivity; discriminate H.
  - intros e He. unfold get_trends. now rewrite He.
  - intros sort_values e st He. unfold get_district_rankings. now rewrite He.
Qed.

Lemma queries_on_empty_dataset_witness :
  get_stats NoColumns (Table []) NoColumns =
    Ok (mkStats (mkEnrolmentStats 0 0 0 0) (0%Z, 0%Z) (0%Z, 0%Z)) /\
  get_trends NoColumns = Ok [] /\
  get_district_rankings stable_sort (Table []) (Some "X") = Ok [].
Proof.
  destruct queries_on_empty_dataset as [_ [_ [Htrends Hrank]]].
  split; [reflexivity|]. split.
  - apply Htrends. reflexivity.
  - apply Hrank. reflexivity.
Defined.

(** ** District rankings *)

Lemma insert_desc_perm (past : RankRow -> RankRow -> bool) (x : RankRow) (l : list RankRow) :
  Permutation (x :: l) (insert_desc past x l).
Proof.
  induction l as [|y l IH]; simpl; [reflexivity|].
  destruct (past x y); [|reflexivity].
  rewrite perm_swap. now apply perm_skip.
Qed.

Lemma insert_desc_sorted (past : RankRow -> RankRow -> bool) (x : RankRow) (l : list RankRow) :
  (forall a b, past a b = true -> descending b a) ->
  (forall a b, past a b = false -> descending a b) ->
  Sorted descending l -> Sorted descending (insert_desc past x l).
Proof.
  intros Ht Hf. induction 1 as [|y l Hs IH Hhd]; simpl; [repeat constructor|].
  destruct (past x y) eqn:E.
  - constructor; [exact IH|].
    destruct l as [|z l]; simpl.
    + constructor. now apply Ht.
    + destruct (past x z); constructor; [now apply HdRel_inv in Hhd | now apply Ht].
  - constructor; [now constructor|]. constructor. now apply Hf.
Qed.

Lemma fold_insert_sorts (past : RankRow -> RankRow -> bool) :
  (forall a b, past a b = true -> descending b a) ->
  (forall a b, past a b = false -> descending a b) ->
  sorts_descending (fun l => fold_right (insert_desc past) [] l).
Proof.
  intros Ht Hf l. induction l as [|x l [IHp IHs]]; simpl; [split; constructor|].
  split.
  - rewrite <- insert_desc_perm. now apply perm_skip.
  - now apply insert_desc_sorted.
Qed.

Lemma stable_sort_sorts : sorts_descending stable_sort.
Proof.
  apply fold_insert_sorts; unfold descending; intros a b H.
  - apply Z.ltb_lt in H. lia.
  - apply Z.ltb_ge in H. exact H.
Qed.

Lemma sort_nil (sort_values : list RankRow -> list RankRow) :
  sorts_descending sort_values -> sort_values [] = [].
Proof. intros H. destruct (H []) as [Hp _]. now apply Permutation_nil. Qed.

Lemma filter_state_no_match (s : string) (rows : list Enrolment) :
  s <> EmptyString -> (forall r, In r rows -> state r <> Some s) ->
  filter_state (Some s) rows = [].
Proof.
  intros Hs Hno. unfold filter_state. destruct s as [|c s]; [contradiction|].
  induction rows as [|r rows IH]; simpl; [reflexivity|].
  unfold state_is at 1. destruct (state r) as [s'|] eqn:E.
  - destruct (String.eqb_spec s' (String c s)) as [->|_].
    + exfalso. apply (Hno r); [now left | exact E].
    + apply IH. intros r' Hr'. apply Hno. now right.
  - apply IH. intros r' Hr'. apply Hno. now right.
Qed.

Lemma filter_state_nil (st : option string) : filter_state st [] = [].
Proof. destruct st as [[|c s]|]; reflexivity. Qed.

Lemma get_district_rankings_table (sort_values : list RankRow -> list RankRow)
    (rows : list Enrolment) (st : option string) :
  sorts_descending sort_values ->
  get_district_rankings sort_values (Table rows) st =
  Ok (firstn 20 (sort_values (district_totals (filter_state st rows)))).
Proof.
  intros Hsort. unfold get_district_rankings. destruct rows as [|r rows].
  - cbn [empty]. rewrite filter_state_nil.
    change (district_totals []) with (@nil RankRow).
    now rewrite (sort_nil sort_values Hsort).
  - cbn [empty]. unfold rows_by, column, bind. now rewrite map_id.
Qed.

(** C10.  For every enrolment dataset and every state filter the district
    rankings are answered, with at most twenty rows; a filter naming a
    state that no row has gives the empty list. *)
Theorem district_rankings_bounded (sort_values : list RankRow -> list RankRow)
    (df_enrolment : dataset Enrolment) (st : option string) :
  sorts_descending sort_values ->
  exists out,
    get_district_rankings sort_values df_enrolment st = Ok out /\
    (List.length out <= 20)%nat /\
    (forall s rows,
        st = Some s -> s <> EmptyString -> df_enrolment = Table rows ->
        (forall r, In r rows -> state r <> Some s) -> out = []).
Proof.
  intros Hsort. destruct df_enrolment as [|rows].
  - exists []. split; [reflexivity|]. split; [simpl; lia|]. discriminate.
  - rewrite (get_district_rankings_table sort_values rows st Hsort).
    eexists; split; [reflexivity|]. split; [apply firstn_le_length|].
    intros s rows' -> Hs Heq Hno. injection Heq as <-.
    rewrite (filter_state_no_match s rows Hs Hno).
    change (district_totals []) with (@nil RankRow).
    now rewrite (sort_nil sort_values Hsort).
Qed.

(** An empty filter text is no filter. *)
Example empty_filter_text (sort_values : list RankRow -> list RankRow)
    (df_enrolment : dataset Enrolment) :
  get_district_rankings sort_values df_enrolment (Some EmptyString) =
  get_district_rankings sort_values df_enrolment None.
Proof. reflexivity. Qed.

Lemma district_rankings_bounded_witness :
  exists out,
    get_district_rankings stable_sort
      (Table [mkEnrolment None (Some "X") (Some "A") 1 2 3]) (Some "Y") = Ok out /\
    out = [].
Proof.
  destruct (district_rankings_bounded stable_sort
              (Table [mkEnrolment None (Some "X") (Some "A") 1 2 3]) (Some "Y")
              stable_sort_sorts) as [out [Hout [_ Hempty]]].
  exists out. split; [exact Hout|].
  apply (Hempty "Y" [mkEnrolment None (Some "X") (Some "A") 1 2 3]);
    try reflexivity; try discriminate.
  intros r [<-|[]]. discriminate.
Defined.


Lemma StronglySorted_app_inv {A : Type} (R : A -> A -> Prop) (l1 l2 : list A) :
  StronglySorted R (l1 ++ l2) ->
  StronglySorted R l1 /\ forall a b, In a l1 -> In b l2 -> R a b.
Proof.
  induction l1 as [|x l1 IH]; simpl; intros H.
  - split; [constructor | intros a b []].
  - apply StronglySorted_inv in H as [Hs Hall]. destruct (IH Hs) as [H1 H2].
    rewrite Forall_forall in Hall. split.
    + constructor; [exact H1|]. rewrite Forall_forall. intros y Hy.
      apply Hall, in_or_app. now left.
    + intros a b [<-|Ha] Hb; [|now apply H2]. apply Hall, in_or_app. now right.
Qed.




(** * Further properties of the code *)

(** ** The shape of a clean column name *)

Module NormalizerShape.

Import Normalizer.

Lemma all_chars_smap (p : ascii -> bool) (f : ascii -> ascii) (s : string) :
  (forall c, p (f c) = true) -> all_chars p (smap f s) = true.
Proof. intros H; induction s as [|c s IH]; simpl; [reflexivity | now rewrite H, IH]. Qed.

Lemma clean_char_plain (c : ascii) :
  negb (is_upper (clean_char c)) && negb (Ascii.eqb (clean_char c) " ") = true.
Proof. destruct c as [[] [] [] [] [] [] [] []]; reflexivity. Qed.

Lemma last_ok_rstrip (s : string) : last_ok (rstrip s).
Proof.
  induction s as [|c s IH]; simpl; [exact I|].
  destruct (is_space c && is_empty (rstrip s)) eqn:E; [exact I|].
  destruct (rstrip s) as [|c' r]; [|exact IH].
  simpl. now rewrite andb_true_r in E.
Qed.

Lemma last_ok_smap (f : ascii -> ascii) (s : string) :
  (forall c, is_space c = false -> is_space (f c) = false) ->
  last_ok s -> last_ok (smap f s).
Proof.
  intros Hf; induction s as [|c s IH]; simpl; [trivial|].
  destruct s as [|c' s]; simpl in *; auto.
Qed.

(** A clean column name holds no capital letter and no space character,
    and it neither starts nor ends with white space. *)
Theorem clean_name_shape (raw : string) :
  all_chars (fun c => negb (is_upper c) && negb (Ascii.eqb c " ")) (clean_name raw) = true /\
  head_ok (clean_name raw) /\ last_ok (clean_name raw).
Proof.
  rewrite clean_name_smap. split; [|split].
  - apply all_chars_smap, clean_char_plain.
  - apply head_ok_smap; [exact clean_char_keeps_non_space|].
    apply head_ok_rstrip, head_ok_lstrip.
  - apply last_ok_smap; [exact clean_char_keeps_non_space|]. apply last_ok_rstrip.
Qed.

End NormalizerShape.

(** ** The date format *)

Module DatesFacts.

Import Dates.

Local Open Scope Z_scope.

Lemma is_digit_bounds (c : ascii) : is_digit c = true -> 0 <= digit c <= 9.
Proof.
  unfold is_digit, digit. intros H. apply andb_prop in H as [H1 H2].
  apply Nat.leb_le in H1, H2. lia.
Qed.

Lemma in_range_bounds (lo hi : nat) (c : ascii) :
  in_range lo hi c = true -> Z.of_nat lo - 48 <= digit c <= Z.of_nat hi - 48.
Proof.
  unfold in_range, digit. intros H. apply andb_prop in H as [H1 H2].
  apply Nat.leb_le in H1, H2. lia.
Qed.

Lemma year_token_bounds (tok : string) (y : Z) :
  year_token tok = Some y -> 0 <= y <= 9999.
Proof.
  destruct tok as [|a [|b [|c [|d [|e tok]]]]]; cbn [year_token]; try discriminate.
  destruct (is_digit a) eqn:Ea; [|discriminate].
  destruct (is_digit b) eqn:Eb; [|discriminate].
  destruct (is_digit c) eqn:Ec; [|discriminate].
  destruct (is_digit d) eqn:Ed; [|discriminate].
  cbn [andb]. intros H.
  replace y with (1000 * digit a + 100 * digit b + 10 * digit c + digit d) by congruence.
  pose proof (is_digit_bounds a Ea). pose proof (is_digit_bounds b Eb).
  pose proof (is_digit_bounds c Ec). pose proof (is_digit_bounds d Ed). lia.
Qed.

Lemma make_date_fields (y m d : Z) (dt : date) :
  make_date y m d = Some dt ->
  dt = mkDate y m d /\ 1 <= y /\ 1 <= m <= 12 /\ 1 <= d <= days_in_month y m.
Proof.
  unfold make_date.
  destruct ((1 <=? y) && (1 <=? m) && (m <=? 12) && (1 <=? d) && (d <=? days_in_month y m))
    eqn:E; [|discriminate].
  intros H; injection H as <-.
  repeat (apply andb_prop in E as [E ?]).
  repeat match goal with H : (_ <=? _) = true |- _ => apply Z.leb_le in H end.
  auto.
Qed.

(** The parser yields days of the calendar only: whatever text it
    accepts stands for a month between 1 and 12, a day that this month
    has in this year, and a year between 1 and 9999. *)
Lemma parse_date_valid (s : string) (d : date) :
  parse_date s = Some d -> valid d.
Proof.
  unfold parse_date.
  destruct (split_dash s) as [dtok [rest|]]; [|discriminate].
  destruct (split_dash rest) as [mtok [ytok|]]; [|discriminate].
  destruct (day_token dtok) as [dd|]; [|discriminate].
  destruct (month_token mtok) as [mm|]; [|discriminate].
  destruct (year_token ytok) as [yy|] eqn:Ey; [|discriminate].
  intros H. apply make_date_fields in H as [-> [Hy [Hm Hd]]].
  pose proof (year_token_bounds ytok yy Ey).
  unfold valid; simpl. lia.
Qed.

Lemma digit_char_cases (z : Z) (P : ascii -> Prop) :
  (forall n, (n < 10)%nat -> P (ascii_of_nat (48 + n))) -> P (digit_char z).
Proof.
  intros H. unfold digit_char. apply H.
  pose proof (Z.mod_pos_bound z 10 ltac:(lia)) as Hb.
  set (r := z mod 10) in *. clearbody r. lia.
Qed.

Ltac ten_cases n :=
  do 10 (destruct n as [|n]; [try reflexivity|]); try lia.

Lemma digit_char_not_dash (z : Z) : Ascii.eqb (digit_char z) "-" = false.
Proof. apply digit_char_cases. intros n Hn. ten_cases n. Qed.

Lemma is_digit_digit_char (z : Z) : is_digit (digit_char z) = true.
Proof. apply digit_char_cases. intros n Hn. ten_cases n. Qed.

Lemma digit_digit_char (z : Z) : digit (digit_char z) = z mod 10.
Proof.
  unfold digit_char, digit.
  pose proof (Z.mod_pos_bound z 10 ltac:(lia)) as Hb.
  set (r := z mod 10) in *. clearbody r.
  rewrite nat_ascii_embedding by lia. lia.
Qed.

Lemma split_dash_two_digits (z : Z) (rest : string) :
  split_dash (two_digits z ++ "-" ++ rest) = (two_digits z, Some rest).
Proof.
  unfold two_digits. cbn [append split_dash].
  rewrite !digit_char_not_dash. cbn [split_dash Ascii.eqb Bool.eqb]. reflexivity.
Qed.

Lemma day_token_two_digits (n : nat) :
  (1 <= n <= 31)%nat -> day_token (two_digits (Z.of_nat n)) = Some (Z.of_nat n).
Proof.
  intros H. do 32 (destruct n as [|n]; [try lia; try reflexivity|]). lia.
Qed.

Lemma month_token_two_digits (n : nat) :
  (1 <= n <= 12)%nat -> month_token (two_digits (Z.of_nat n)) = Some (Z.of_nat n).
Proof.
  intros H. do 13 (destruct n as [|n]; [try lia; try reflexivity|]). lia.
Qed.

Lemma year_token_four_digits (y : Z) :
  0 <= y <= 9999 -> year_token (four_digits y) = Some y.
Proof.
  intros H. unfold four_digits, year_token.
  rewrite !is_digit_digit_char, !digit_digit_char. cbn [andb]. f_equal.
  Z.div_mod_to_equations. lia.
Qed.

Lemma days_in_month_le_31 (y m : Z) : days_in_month y m <= 31.
Proof.
  unfold days_in_month.
  destruct (m =? 2); [destruct (is_leap y); lia|].
  destruct ((m =? 4) || (m =? 6) || (m =? 9) || (m =? 11)); lia.
Qed.

(** Round trip: a day of the calendar, written day-month-year with two,
    two and four digits, parses to itself. *)
Theorem parse_date_ddmmyyyy (d : date) :
  valid d -> parse_date (ddmmyyyy d) = Some d.
Proof.
  destruct d as [y m dd]. unfold valid; simpl. intros [Hy [Hm Hd]].
  pose proof (days_in_month_le_31 y m).
  unfold parse_date, ddmmyyyy; simpl year; simpl month; simpl day.
  rewrite split_dash_two_digits, split_dash_two_digits.
  rewrite <- (Z2Nat.id dd) at 1 by lia. rewrite day_token_two_digits by lia.
  rewrite <- (Z2Nat.id m) at 1 by lia. rewrite month_token_two_digits by lia.
  rewrite year_token_four_digits by lia.
  rewrite !Z2Nat.id by lia. unfold make_date.
  replace ((1 <=? y) && (1 <=? m) && (m <=? 12) && (1 <=? dd) && (dd <=? days_in_month y m))
    with true; [reflexivity|].
  symmetry. repeat (apply andb_true_intro; split); apply Z.leb_le; lia.
Qed.

Lemma parse_date_ddmmyyyy_witness :
  parse_date (ddmmyyyy (mkDate 1947 8 15)) = Some (mkDate 1947 8 15).
Proof.
  apply parse_date_ddmmyyyy. unfold valid; simpl.
  repeat split; try lia; vm_compute; discriminate.
Defined.

End DatesFacts.

(** ** More on the loader *)

Module LoaderFacts.

Import Normalizer Dates Loader.

Lemma date_col_index (cols : list string) (c : string) :
  date_col cols = Some c -> exists i, index_of c cols = Some i.
Proof.
  intros H. destruct (date_col_position cols c H) as [_ [i [Hi _]]]. eauto.
Qed.

(** A file is left out of the load in two cases only: it cannot be read,
    or the first of its clean labels that contains "date" occurs more
    than once among them. *)
Theorem load_file_skips_iff (f : file) :
  (exists e, load_file f = Error e) <->
  f = Unreadable \/
  exists header body c,
    f = Csv header body /\
    date_col (map clean_name header) = Some c /\
    (2 <= count c (map clean_name header))%nat.
Proof.
  destruct f as [|header body]; unfold load_file, read_csv, bind, normalize;
    cbn [columns rows].
  - split; [now left | intros _; exists ValueError; reflexivity].
  - destruct (date_col (map clean_name header)) as [c|] eqn:Hcol.
    + destruct (date_col_position _ _ Hcol) as [Hc [i [Hi _]]].
      rewrite (has_date_not_empty c Hc), Hi.
      destruct (2 <=? count c (map clean_name header))%nat eqn:E.
      * split; [|intros _; exists ValueError; reflexivity].
        intros _. right. exists header, body, c.
        apply Nat.leb_le in E. split; [reflexivity|]. split; [exact Hcol | exact E].
      * split; [intros [e He]; discriminate|].
        intros [H|[h [b [c' [Heq [Hc' Hcount]]]]]]; [discriminate|].
        injection Heq as <- <-. rewrite Hcol in Hc'. injection Hc' as <-.
        apply Nat.leb_gt in E. lia.
    + split; [intros [e He]; discriminate|].
      intros [H|[h [b [c' [Heq [Hc' _]]]]]]; [discriminate|].
      injection Heq as <- <-. rewrite Hcol in Hc'. discriminate.
Qed.

(** A file that is loaded keeps its shape: the labels of the frame are
    the clean labels of the header, in order, there is one row per line,
    every row is as wide as its line, and a cell is the cell of the line
    or what [to_datetime] makes of it. *)
Theorem load_file_keeps_shape (header : list string) (body : list (list cell)) (g : frame) :
  load_file (Csv header body) = Ok g ->
  columns g = map clean_name header /\
  Forall2 (fun line r =>
             List.length r = List.length line /\
             forall j, nth_error r j = nth_error line j \/
                       nth_error r j = option_map to_datetime (nth_error line j))
          body (rows g).
Proof.
  unfold load_file, read_csv, bind, normalize; cbn [columns rows].
  assert (Hsame : Forall2 (fun line r : list cell =>
             List.length r = List.length line /\
             forall j, nth_error r j = nth_error line j \/
                       nth_error r j = option_map to_datetime (nth_error line j)) body body).
  { induction body as [|l body IH]; constructor; auto. }
  destruct (date_col (map clean_name header)) as [c|].
  - destruct (is_empty c); [intros H; injection H as <-; now split|].
    destruct (2 <=? count c (map clean_name header))%nat; [discriminate|].
    destruct (index_of c (map clean_name header)) as [i|]; [|discriminate].
    intros H; injection H as <-. split; [reflexivity|]. simpl.
    clear Hsame. induction body as [|l body IH]; simpl; constructor; [|exact IH].
    split; [apply length_update_at|]. intros j. rewrite nth_error_update_at.
    destruct (j =? i)%nat; auto.
  - intros H; injection H as <-. now split.
Qed.

Lemma load_file_keeps_shape_witness :
  columns (mkFrame ["state"; "date"] [DObject; DDatetime] [[CStr "X"; CNaT]]) =
  map clean_name [" State"; "DATE"].
Proof.
  apply (load_file_keeps_shape [" State"; "DATE"] [[CStr "X"; CStr "31-02-2024"]]
           (mkFrame ["state"; "date"] [DObject; DDatetime] [[CStr "X"; CNaT]])).
  reflexivity.
Defined.

(** *** The fill loop *)

Lemma fillna0_idem (c : cell) : fillna0 (fillna0 c) = fillna0 c.
Proof. destruct c; reflexivity. Qed.

Lemma is_numeric_column_fill (df : frame) (i : nat) :
  is_numeric_column (fill_numeric df) i = is_numeric_column df i.
Proof. unfold fill_numeric. now destruct (is_empty_frame df). Qed.

Lemma is_empty_frame_fill (df : frame) :
  is_empty_frame (fill_numeric df) = is_empty_frame df.
Proof.
  unfold fill_numeric. destruct (is_empty_frame df) eqn:E; [exact E|].
  unfold is_empty_frame in *. simpl.
  destruct (columns df); [discriminate|]. destruct (rows df); [discriminate | reflexivity].
Qed.

Lemma fill_row_twice (n1 n2 : nat -> bool) (r : list cell) (k : nat) :
  (forall i, n2 i = n1 i) -> fill_row n2 k (fill_row n1 k r) = fill_row n1 k r.
Proof.
  intros H; revert k; induction r as [|c r IH]; intros k; simpl; [reflexivity|].
  rewrite IH, H. destruct (n1 k); [now rewrite fillna0_idem | reflexivity].
Qed.

(** Filling is idempotent: a second pass of the fill loop over a dataset
    changes nothing. *)
Theorem fill_numeric_idempotent (df : frame) :
  fill_numeric (fill_numeric df) = fill_numeric df.
Proof.
  unfold fill_numeric at 1. rewrite is_empty_frame_fill.
  destruct (is_empty_frame df) eqn:E; [reflexivity|].
  assert (Hn : forall i, is_numeric_column (fill_numeric df) i = is_numeric_column df i)
    by (intros i; apply is_numeric_column_fill).
  revert Hn. unfold fill_numeric. rewrite E. cbn [columns dtypes rows]. intros Hn.
  f_equal. rewrite map_map.
  apply map_ext. intros r. apply fill_row_twice. exact Hn.
Qed.

Lemma fill_row_changes (numeric : nat -> bool) (r : list cell) (k : nat) :
  Forall2 (fun c c' => c' = c \/ (c = CNaN /\ c' = CInt 0)) r (fill_row numeric k r).
Proof.
  revert k; induction r as [|c r IH]; intros k; simpl; constructor; [|apply IH].
  destruct (numeric k); [|now left]. destruct c; simpl; auto.
Qed.

(** The fill loop keeps the labels and the shape of the dataset and
    touches no cell but a missing number, which becomes zero: texts,
    dates and missing dates stay as they are. *)
Theorem fill_numeric_changes_nan_only (df : frame) :
  columns (fill_numeric df) = columns df /\
  Forall2 (Forall2 (fun c c' => c' = c \/ (c = CNaN /\ c' = CInt 0)))
          (rows df) (rows (fill_numeric df)).
Proof.
  unfold fill_numeric. destruct (is_empty_frame df); simpl; split; try reflexivity.
  - induction (rows df) as [|r rs IH]; constructor; [|exact IH].
    induction r as [|c r IHr]; constructor; auto.
  - induction (rows df) as [|r rs IH]; simpl; constructor; [|exact IH].
    apply fill_row_changes.
Qed.

(** *** The order of the files *)

Lemma read_all_perm (files files' : list file) :
  Permutation files files' -> Permutation (read_all files) (read_all files').
Proof.
  induction 1 as [|f l l' Hp IH|f f' l|l l' l'' H1 IH1 H2 IH2]; simpl.
  - reflexivity.
  - destruct (load_file f); [now apply perm_skip | exact IH].
  - destruct (load_file f), (load_file f'); try reflexivity. apply perm_swap.
  - now transitivity (read_all l').
Qed.

Lemma index_of_absent (c : string) (l : list string) :
  ~ In c l -> index_of c l = None.
Proof.
  induction l as [|x l IH]; simpl; [reflexivity|]. intros H.
  destruct (String.eqb_spec c x) as [->|_]; [exfalso; apply H; now left|].
  rewrite IH; [reflexivity|]. intros Hin; apply H; now right.
Qed.

Lemma lookup_absent (cols : list string) (r : list cell) (c : string) :
  ~ In c cols -> lookup cols r c = CNaN.
Proof. intros H. unfold lookup. now rewrite (index_of_absent c cols H). Qed.

Lemma map_flat_map {A B C : Type} (f : B -> C) (g : A -> list B) (l : list A) :
  map f (flat_map g l) = flat_map (fun x => map f (g x)) l.
Proof. induction l as [|x l IH]; simpl; [reflexivity | now rewrite map_app, IH]. Qed.

Lemma flat_map_ext_in {A B : Type} (f g : A -> list B) (l : list A) :
  (forall x, In x l -> f x = g x) -> flat_map f l = flat_map g l.
Proof.
  induction l as [|x l IH]; simpl; intros H; [reflexivity|].
  rewrite (H x (or_introl eq_refl)), IH; [reflexivity|]. intros y Hy. apply H. now right.
Qed.

Lemma In_unique_from_inv (c : string) (seen l : list string) :
  In c (unique_from seen l) -> In c l.
Proof.
  revert seen; induction l as [|x l IH]; intros seen; simpl; [tauto|].
  destruct (mem x seen); [intros H; right; exact (IH _ H)|].
  intros [H|H]; [now left | right; exact (IH _ H)].
Qed.

Lemma combined_columns_from (dfs : list frame) (c : string) :
  In c (combined_columns dfs) -> exists g, In g dfs /\ In c (columns g).
Proof.
  unfold combined_columns. destruct dfs as [|df rest]; [intros []|].
  destruct (all_same (df :: rest)).
  - intros H. exists df. split; [now left | exact H].
  - intros H. apply In_unique_from_inv, in_concat in H as [cols [Hcols Hc]].
    apply in_map_iff in Hcols as [g [<- Hg]]. eauto.
Qed.

Lemma index_of_nth_error (c : string) (cols : list string) (i : nat) :
  index_of c cols = Some i -> nth_error cols i = Some c.
Proof.
  revert i; induction cols as [|x cols IH]; intros i; simpl; [discriminate|].
  destruct (String.eqb_spec c x) as [->|_].
  - intros H; injection H as <-. reflexivity.
  - destruct (index_of c cols) as [j|]; [|discriminate].
    intros H; injection H as <-. simpl. now apply IH.
Qed.

Lemma mem_false (c : string) (l : list string) : mem c l = false <-> ~ In c l.
Proof.
  rewrite <- mem_In. destruct (mem c l); split; intros H; try discriminate; try reflexivity.
  exfalso. now apply H.
Qed.

(** When a merged frame has a label that one of its frames lacks, the
    frames do not all have the same labels, and the type of the merged
    column is the common type of its parts. *)
Lemma gap_dtype (dfs : list frame) (g : frame) (c : string) (i : nat) :
  In g dfs -> ~ In c (columns g) ->
  index_of c (combined_columns dfs) = Some i ->
  nth_error (combined_dtypes dfs) i = Some (common (dtypes_under c dfs) (lacking c dfs)).
Proof.
  intros Hg Hc Hi. pose proof (index_of_nth_error _ _ _ Hi) as Hn.
  unfold combined_columns, combined_dtypes in *.
  destruct dfs as [|df rest]; [destruct Hg|].
  destruct (all_same (df :: rest)) eqn:E.
  - exfalso. apply Hc. apply nth_error_In in Hn.
    destruct Hg as [<-|Hg]; [exact Hn|].
    simpl in E. rewrite forallb_forall in E. specialize (E g Hg).
    apply labels_eqb_eq in E. now rewrite E.
  - unfold combined_columns. rewrite E. now rewrite nth_error_map, Hn.
Qed.

(** What a row of a frame holds under a label once it is laid out under
    the labels of the merged frame. *)
Lemma laid_out_cell (dfs : list frame) (g : frame) (r : list cell) (c : string) :
  In g dfs ->
  lookup (combined_columns dfs)
         (map (fetch (columns g) r) (combine (combined_columns dfs) (combined_dtypes dfs))) c =
  if mem c (columns g) then lookup (columns g) r c else gap_cell c dfs.
Proof.
  intros Hg.
  pose proof (map_fst_combine (combined_columns dfs) (combined_dtypes dfs)
                (length_combined_dtypes dfs)) as Hfst.
  pose proof (map_snd_combine (combined_columns dfs) (combined_dtypes dfs)
                (length_combined_dtypes dfs)) as Hsnd.
  destruct (mem c (columns g)) eqn:Hmem.
  - apply mem_In in Hmem. rewrite <- Hfst at 1.
    apply lookup_fetch; [|exact Hmem].
    rewrite Hfst. exact (combined_columns_incl dfs g c Hg Hmem).
  - apply mem_false in Hmem. unfold gap_cell.
    destruct (index_of c (combined_columns dfs)) as [i|] eqn:Hi.
    + assert (Hex : existsb (fun g' => mem c (columns g')) dfs = true).
      { apply existsb_exists.
        destruct (combined_columns_from dfs c (nth_error_In _ _ (index_of_nth_error _ _ _ Hi)))
          as [g' [Hg' Hc']].
        exists g'. split; [exact Hg' | now apply mem_In]. }
      rewrite Hex. rewrite <- Hfst at 1.
      apply (lookup_fetch_gap _ _ _ _ i); [now rewrite Hfst | | exact Hmem].
      rewrite Hsnd. exact (gap_dtype dfs g c i Hg Hmem Hi).
    + assert (Hout : ~ In c (combined_columns dfs)).
      { intros Hin. destruct (index_of_In _ _ Hin) as [j Hj]. congruence. }
      rewrite (lookup_absent _ _ _ Hout).
      destruct (existsb (fun g' => mem c (columns g')) dfs) eqn:Hex; [|reflexivity].
      exfalso. apply existsb_exists in Hex as [g' [Hg' Hc']]. apply mem_In in Hc'.
      exact (Hout (combined_columns_incl dfs g' c Hg' Hc')).
Qed.

Lemma forallb_perm {A : Type} (f : A -> bool) (l l' : list A) :
  Permutation l l' -> forallb f l = forallb f l'.
Proof.
  induction 1 as [|x l l' _ IH|x y l|l l' l'' _ IH1 _ IH2]; simpl.
  - reflexivity.
  - now rewrite IH.
  - now rewrite !andb_assoc, (andb_comm (f y)).
  - now rewrite IH1.
Qed.

Lemma existsb_perm {A : Type} (f : A -> bool) (l l' : list A) :
  Permutation l l' -> existsb f l = existsb f l'.
Proof.
  induction 1 as [|x l l' _ IH|x y l|l l' l'' _ IH1 _ IH2]; simpl.
  - reflexivity.
  - now rewrite IH.
  - now rewrite !orb_assoc, (orb_comm (f y)).
  - now rewrite IH1.
Qed.

Lemma dtypes_under_perm (c : string) (dfs dfs' : list frame) :
  Permutation dfs dfs' -> Permutation (dtypes_under c dfs) (dtypes_under c dfs').
Proof.
  induction 1 as [|x l l' _ IH|x y l|l l' l'' _ IH1 _ IH2]; simpl.
  - reflexivity.
  - destruct (dtype_of x c); [now apply perm_skip | exact IH].
  - destruct (dtype_of x c), (dtype_of y c); try reflexivity. apply perm_swap.
  - now transitivity (dtypes_under c l').
Qed.

(** The type of a merged column does not depend on the order of the
    frames, and neither does its missing marker. *)
Lemma gap_cell_perm (c : string) (dfs dfs' : list frame) :
  Permutation dfs dfs' -> gap_cell c dfs = gap_cell c dfs'.
Proof.
  intros H. unfold gap_cell, common, lacking.
  rewrite (existsb_perm _ _ _ H).
  rewrite (existsb_perm (fun df => negb (mem c (columns df))) _ _ H).
  pose proof (dtypes_under_perm c _ _ H) as Hd.
  now rewrite (forallb_perm is_datetime _ _ Hd), (forallb_perm is_int64 _ _ Hd),
    (forallb_perm is_number_dtype _ _ Hd).
Qed.

(** The load of a folder of proper files, spelled out. *)
Lemma load_proper (files : list file) :
  Forall proper files ->
  exists df,
    load_df_from_folder (mkFolder files []) = Ok df /\
    forall c, cells_under c df =
              flat_map (cells_or (gap_cell c (read_all files)) c) (read_all files).
Proof.
  intros Hproper. destruct (read_all_proper files Hproper) as [_ [Htidy _]].
  unfold load_df_from_folder.
  assert (Hd : discover (mkFolder files []) = files) by (destruct files; reflexivity).
  rewrite Hd. destruct (read_all files) as [|g0 good] eqn:Hgood.
  - exists empty_frame. split; [reflexivity|]. intros c. reflexivity.
  - unfold concat_frames, bind. rewrite (align_all_tidy _ _ Htidy).
    eexists; split; [reflexivity|]. intros c.
    unfold cells_under at 1. cbn [columns rows]. rewrite map_flat_map.
    apply flat_map_ext_in. intros g Hg. unfold reindex, cells_or. rewrite map_map.
    apply map_ext. intros r. now apply laid_out_cell.
Qed.

(** The order in which the files of a folder are found does not matter
    to what is loaded: under every label the loaded dataset holds the
    same values, each as often, whatever the order of the files is. *)
Theorem load_order_independent (files files' : list file) :
  Forall proper files -> Permutation files files' ->
  exists df df',
    load_df_from_folder (mkFolder files []) = Ok df /\
    load_df_from_folder (mkFolder files' []) = Ok df' /\
    List.length (rows df) = List.length (rows df') /\
    forall c, Permutation (cells_under c df) (cells_under c df').
Proof.
  intros Hproper Hperm.
  assert (Hproper' : Forall proper files') by exact (Permutation_Forall Hperm Hproper).
  destruct (load_proper files Hproper) as [df [Hdf Hcells]].
  destruct (load_proper files' Hproper') as [df' [Hdf' Hcells']].
  exists df, df'. split; [exact Hdf|]. split; [exact Hdf'|].
  assert (Hall : forall c, Permutation (cells_under c df) (cells_under c df')).
  { intros c. rewrite Hcells, Hcells'.
    rewrite (gap_cell_perm c _ _ (read_all_perm _ _ Hperm)).
    apply Permutation_flat_map, read_all_perm, Hperm. }
  split; [|exact Hall].
  specialize (Hall EmptyString). apply Permutation_length in Hall.
  unfold cells_under in Hall. now rewrite !length_map in Hall.
Qed.

Lemma load_order_independent_witness :
  exists df df',
    load_df_from_folder
      (mkFolder [Csv ["State"] [[CStr "X"]]; Unreadable; Csv ["state"; "age"] [[CStr "Y"; CInt 3]]] [])
      = Ok df /\
    load_df_from_folder
      (mkFolder [Csv ["state"; "age"] [[CStr "Y"; CInt 3]]; Csv ["State"] [[CStr "X"]]; Unreadable] [])
      = Ok df' /\
    Permutation (cells_under "age" df) (cells_under "age" df').
Proof.
  destruct (load_order_independent
              [Csv ["State"] [[CStr "X"]]; Unreadable; Csv ["state"; "age"] [[CStr "Y"; CInt 3]]]
              [Csv ["state"; "age"] [[CStr "Y"; CInt 3]]; Csv ["State"] [[CStr "X"]]; Unreadable])
    as [df [df' [H1 [H2 [_ H3]]]]].
  - repeat constructor; simpl; intuition discriminate.
  - apply Permutation_cons_app with (l1 := [Csv ["state"; "age"] [[CStr "Y"; CInt 3]]])
                                    (l2 := [Unreadable]).
    simpl. apply perm_swap.
  - exists df, df'. split; [exact H1|]. split; [exact H2 | apply H3].
Defined.

End LoaderFacts.

(** ** The sample data *)

Module SampleFacts.

Import Loader Data Samples.

Example enrolment_sample_loaded :
  load_dataset (mkFolder [enrolment_file] []) = Ok enrolment_frame.
Proof. reflexivity. Qed.

Example enrolment_sample_read :
  enrolment enrolment_frame = Some (Table enrolment_rows) /\
  enrolment enrolment_frame' = Some (Table enrolment_rows').
Proof. split; reflexivity. Qed.

Example biometric_sample_loaded :
  load_dataset (mkFolder [biometric_file] []) = Ok biometric_frame /\
  biometric biometric_frame = Some (Table biometric_rows).
Proof. split; reflexivity. Qed.

(** One empty count field makes the column a [float64] one: the fill
    loop writes the zero, and the frame is not read as a table of
    [int64] counts. *)
Example float_count_column :
  load_dataset
    (mkFolder [ Csv ["State"; "bio_age_5_17"; "bio_age_17_"]
                    [ [CStr "X"; CInt 2; CInt 3]; [CStr "Z"; CNaN; CInt 1] ] ] []) =
  Ok (mkFrame ["state"; "bio_age_5_17"; "bio_age_17_"] [DObject; DFloat64; DInt64]
              [ [CStr "X"; CInt 2; CInt 3]; [CStr "Z"; CInt 0; CInt 1] ]) /\
  biometric (mkFrame ["state"; "bio_age_5_17"; "bio_age_17_"] [DObject; DFloat64; DInt64]
                     [ [CStr "X"; CInt 2; CInt 3]; [CStr "Z"; CInt 0; CInt 1] ]) = None.
Proof. split; reflexivity. Qed.

End SampleFacts.

(** ** More on grouping *)

Module GroupByMore.

Import GroupBy.

Lemma Permutation_filter {A : Type} (f : A -> bool) (l l' : list A) :
  Permutation l l' -> Permutation (filter f l) (filter f l').
Proof.
  induction 1 as [|x l l' Hp IH|x y l|l l' l'' H1 IH1 H2 IH2]; simpl.
  - reflexivity.
  - destruct (f x); [now apply perm_skip | exact IH].
  - destruct (f x), (f y); try reflexivity. apply perm_swap.
  - now transitivity (filter f l').
Qed.

Section More.

Context {R K : Type}.
Variable cmp : K -> K -> comparison.
Variable key : R -> option K.
Context {laws : OrderLaws cmp}.

Lemma cmp_eq_sym (a b : K) : cmp a b = Eq <-> cmp b a = Eq.
Proof. rewrite (@cmp_antisym K cmp laws a b). destruct (cmp a b); simpl; split; congruence. Qed.

Lemma group_of_below (k : K) (gs : list (K * list R)) :
  Forall (fun x => cmp k x = Lt) (map fst gs) -> group_of cmp k gs = [].
Proof.
  induction gs as [|[k' g] gs IH]; simpl; [reflexivity|].
  intros H. apply Forall_cons_iff in H as [Hk H]. rewrite Hk. now apply IH.
Qed.

Lemma group_of_add (k k' : K) (r : R) (gs : list (K * list R)) :
  ascending cmp gs ->
  group_of cmp k (add_to_group cmp k' r gs) =
  group_of cmp k gs ++ (match cmp k k' with Eq => [r] | _ => [] end).
Proof.
  unfold ascending. induction gs as [|[k0 g] gs IH]; simpl; intros Hs.
  - destruct (cmp k k'); reflexivity.
  - apply StronglySorted_inv in Hs as [Hs Hall].
    destruct (cmp k' k0) eqn:E; simpl.
    + apply (@cmp_eq K cmp laws) in E. subst k0. destruct (cmp k k'); [reflexivity| |];
        now rewrite app_nil_r.
    + destruct (cmp k k') eqn:E'.
      * apply (@cmp_eq K cmp laws) in E'. subst k'. rewrite E.
        rewrite group_of_below; [reflexivity|].
        revert Hall. apply Forall_impl. intros x Hx. exact (@cmp_trans K cmp laws k k0 x E Hx).
      * now rewrite app_nil_r.
      * now rewrite app_nil_r.
    + destruct (cmp k k0) eqn:E0.
      * apply (@cmp_eq K cmp laws) in E0. subst k0.
        destruct (cmp k k') eqn:E'; [|now rewrite app_nil_r|now rewrite app_nil_r].
        apply cmp_eq_sym in E'. rewrite E' in E. discriminate.
      * now apply IH.
      * now apply IH.
Qed.

Lemma rows_of_key_cons (k : K) (r : R) (rows : list R) :
  rows_of_key cmp key k (r :: rows) =
  (match key r with
   | Some k' => match cmp k k' with Eq => [r] | _ => [] end
   | None => []
   end) ++ rows_of_key cmp key k rows.
Proof.
  unfold rows_of_key. simpl. destruct (key r) as [k'|]; simpl; [|reflexivity].
  destruct (cmp k' k) eqn:E.
  - apply cmp_eq_sym in E. now rewrite E.
  - destruct (cmp k k') eqn:E'; try reflexivity.
    apply cmp_eq_sym in E'. rewrite E' in E. discriminate.
  - destruct (cmp k k') eqn:E'; try reflexivity.
    apply cmp_eq_sym in E'. rewrite E' in E. discriminate.
Qed.

Lemma fold_step_group_of (k : K) (rows : list R) (acc : list (K * list R)) :
  ascending cmp acc ->
  group_of cmp k (fold_left (step cmp key) rows acc) =
  group_of cmp k acc ++ rows_of_key cmp key k rows.
Proof.
  revert acc; induction rows as [|r rows IH]; intros acc Ha; cbn [fold_left].
  - unfold rows_of_key. simpl. now rewrite app_nil_r.
  - rewrite rows_of_key_cons. unfold step at 2. destruct (key r) as [k'|].
    + rewrite IH by now apply GroupByFacts.add_to_group_ascending.
      rewrite group_of_add by exact Ha. now rewrite app_assoc.
    + now rewrite IH.
Qed.

Lemma groupby_group_of (k : K) (rows : list R) :
  group_of cmp k (groupby cmp key rows) = rows_of_key cmp key k rows.
Proof. unfold groupby. rewrite fold_step_group_of; [reflexivity | constructor]. Qed.

Lemma group_of_member (k : K) (g : list R) (gs : list (K * list R)) :
  ascending cmp gs -> In (k, g) gs -> group_of cmp k gs = g.
Proof.
  unfold ascending. induction gs as [|[k0 g0] gs IH]; simpl; [tauto|].
  intros Hs. apply StronglySorted_inv in Hs as [Hs Hall]. intros [Heq|Hin].
  - injection Heq as -> ->. now rewrite (GroupByFacts.cmp_refl cmp).
  - rewrite Forall_forall in Hall.
    assert (Hlt : cmp k0 k = Lt) by (apply Hall, in_map_iff; exists (k, g); now split).
    rewrite (@cmp_antisym K cmp laws k0 k), Hlt. simpl. now apply IH.
Qed.

Lemma group_of_inhabited (k : K) (gs : list (K * list R)) :
  group_of cmp k gs <> [] -> In (k, group_of cmp k gs) gs.
Proof.
  induction gs as [|[k0 g0] gs IH]; simpl; [congruence|].
  destruct (cmp k k0) eqn:E; intros H.
  - apply (@cmp_eq K cmp laws) in E. subst k0. now left.
  - right. now apply IH.
  - right. now apply IH.
Qed.

Lemma rows_of_key_spec (k : K) (rows : list R) (r : R) :
  In r (rows_of_key cmp key k rows) <-> In r rows /\ key r = Some k.
Proof.
  unfold rows_of_key. rewrite filter_In.
  rewrite (@GroupByFacts.same_key_eq K cmp laws). tauto.
Qed.

Lemma groupby_structure (rows : list R) :
  StronglySorted (fun a b => cmp a b = Lt) (map fst (groupby cmp key rows)) /\
  (forall k g, In (k, g) (groupby cmp key rows) ->
               g = filter (fun r => same_key cmp (key r) (Some k)) rows) /\
  (forall k, In k (map fst (groupby cmp key rows)) <-> In (Some k) (key_tuples key rows)).
Proof.
  destruct (GroupByFacts.groupby_invariants cmp key rows) as [Hw Ha].
  split; [exact Ha|]. split.
  - intros k g Hin. rewrite <- (group_of_member k g _ Ha Hin). apply groupby_group_of.
  - intros k. split; [exact (GroupByFacts.groupby_keys_from_rows cmp key rows k)|].
    intros Hin. unfold key_tuples in Hin. apply in_map_iff in Hin as [r [Hk Hr]].
    assert (Hne : group_of cmp k (groupby cmp key rows) <> []).
    { rewrite groupby_group_of. intros Hnil.
      assert (Hin : In r (rows_of_key cmp key k rows)) by now apply rows_of_key_spec.
      rewrite Hnil in Hin. destruct Hin. }
    apply group_of_inhabited in Hne. apply in_map_iff.
    exists (k, group_of cmp k (groupby cmp key rows)). now split.
Qed.

(** Two lists of keyed values with strictly ascending keys and the same
    elements are the same list. *)
Lemma ascending_same_elements {V : Type} (l1 l2 : list (K * V)) :
  StronglySorted (fun a b => cmp a b = Lt) (map fst l1) ->
  StronglySorted (fun a b => cmp a b = Lt) (map fst l2) ->
  (forall x, In x l1 <-> In x l2) -> l1 = l2.
Proof.
  revert l2; induction l1 as [|[k1 v1] l1 IH]; intros [|[k2 v2] l2] H1 H2 Hsame.
  - reflexivity.
  - exfalso. apply (proj2 (Hsame (k2, v2))). now left.
  - exfalso. apply (proj1 (Hsame (k1, v1))). now left.
  - simpl in H1, H2. apply StronglySorted_inv in H1 as [H1 A1].
    apply StronglySorted_inv in H2 as [H2 A2].
    rewrite Forall_forall in A1, A2.
    assert (Hirr : forall k, cmp k k <> Lt)
      by (intros k; rewrite (GroupByFacts.cmp_refl cmp); discriminate).
    assert (Hhead : (k1, v1) = (k2, v2)).
    { destruct (proj1 (Hsame (k1, v1)) (or_introl eq_refl)) as [E|Hin1]; [now symmetry|].
      destruct (proj2 (Hsame (k2, v2)) (or_introl eq_refl)) as [E|Hin2]; [exact E|].
      exfalso.
      assert (L1 : cmp k2 k1 = Lt) by (apply A2, in_map_iff; exists (k1, v1); now split).
      assert (L2 : cmp k1 k2 = Lt) by (apply A1, in_map_iff; exists (k2, v2); now split).
      exact (Hirr k1 (@cmp_trans K cmp laws k1 k2 k1 L2 L1)). }
    injection Hhead as -> ->. f_equal. apply IH; [exact H1 | exact H2|].
    intros [k v]. split; intros Hin.
    + destruct (proj1 (Hsame (k, v)) (or_intror Hin)) as [E|Hin']; [|exact Hin'].
      injection E as <- <-. exfalso. apply (Hirr k2), A1, in_map_iff.
      exists (k2, v2). now split.
    + destruct (proj2 (Hsame (k, v)) (or_intror Hin)) as [E|Hin']; [|exact Hin'].
      injection E as <- <-. exfalso. apply (Hirr k2), A2, in_map_iff.
      exists (k2, v2). now split.
Qed.

Lemma rows_of_key_perm (k : K) (rows rows' : list R) :
  Permutation rows rows' ->
  Permutation (rows_of_key cmp key k rows) (rows_of_key cmp key k rows').
Proof. apply Permutation_filter. Qed.

Lemma In_aggregate {V : Type} (agg : list R -> V) (rows : list R) (k : K) (v : V) :
  In (k, v) (map (fun kg => (fst kg, agg (snd kg))) (groupby cmp key rows)) <->
  In (Some k) (key_tuples key rows) /\ v = agg (rows_of_key cmp key k rows).
Proof.
  destruct (groupby_structure rows) as [Ha [Hg Hk]].
  rewrite in_map_iff. split.
  - intros [[k' g] [Heq Hin]]. simpl in Heq. injection Heq as -> <-. split.
    + apply Hk, in_map_iff. exists (k, g). now split.
    + unfold rows_of_key. now rewrite <- (Hg k g Hin).
  - intros [Hin ->]. apply Hk in Hin. apply in_map_iff in Hin as [[k' g] [Heq Hin]].
    simpl in Heq. subst k'. exists (k, g). split; [|exact Hin]. simpl.
    unfold rows_of_key. now rewrite <- (Hg k g Hin).
Qed.

(** An aggregate that does not look at the order of the rows of a group
    gives the same table for every order of the input rows. *)
Lemma aggregate_perm {V : Type} (agg : list R -> V) (rows rows' : list R) :
  (forall l l', Permutation l l' -> agg l = agg l') ->
  Permutation rows rows' ->
  map (fun kg => (fst kg, agg (snd kg))) (groupby cmp key rows) =
  map (fun kg => (fst kg, agg (snd kg))) (groupby cmp key rows').
Proof.
  intros Hagg Hperm. apply ascending_same_elements.
  - rewrite map_map. simpl. apply (groupby_structure rows).
  - rewrite map_map. simpl. apply (groupby_structure rows').
  - intros [k v]. rewrite !In_aggregate.
    rewrite (Hagg _ _ (rows_of_key_perm k rows rows' Hperm)).
    unfold key_tuples. split; intros [Hin Hv]; (split; [|exact Hv]).
    + exact (Permutation_in _ (Permutation_map key Hperm) Hin).
    + exact (Permutation_in _ (Permutation_map key (Permutation_sym Hperm)) Hin).
Qed.

End More.

(** The groups of [groupby]: their keys ascend strictly, the group of a
    key holds exactly the rows with that key, in the order of the input,
    and a key has a group exactly when some row has it. *)
Theorem groupby_groups_in_order {R K : Type} (cmp : K -> K -> comparison)
    (key : R -> option K) (rows : list R) :
  OrderLaws cmp ->
  StronglySorted (fun a b => cmp a b = Lt) (map fst (groupby cmp key rows)) /\
  (forall k g, In (k, g) (groupby cmp key rows) ->
               g = filter (fun r => same_key cmp (key r) (Some k)) rows) /\
  (forall k, In k (map fst (groupby cmp key rows)) <-> In (Some k) (key_tuples key rows)).
Proof. intros laws. exact (groupby_structure cmp key rows). Qed.

Lemma groupby_groups_in_order_witness :
  groupby String.compare Data.state
    [ Data.mkEnrolment None (Some "Y") None 1 0 0;
      Data.mkEnrolment None (Some "X") None 2 0 0;
      Data.mkEnrolment None (Some "Y") None 3 0 0 ] =
  [ ("X", [ Data.mkEnrolment None (Some "X") None 2 0 0 ]);
    ("Y", [ Data.mkEnrolment None (Some "Y") None 1 0 0;
            Data.mkEnrolment None (Some "Y") None 3 0 0 ]) ] /\
  StronglySorted (fun a b => String.compare a b = Lt) ["X"; "Y"].
Proof.
  split; [reflexivity|].
  exact (proj1 (groupby_groups_in_order String.compare Data.state
                  [ Data.mkEnrolment None (Some "Y") None 1 0 0;
                    Data.mkEnrolment None (Some "X") None 2 0 0;
                    Data.mkEnrolment None (Some "Y") None 3 0 0 ]
                  Orders.string_order)).
Defined.

End GroupByMore.

(** ** More on the queries of [backend.py] *)

Module BackendFacts.

Import Dates Data GroupBy Backend Orders.

Lemma same_key_state_is (k : string) (r : Enrolment) :
  same_key String.compare (state r) (Some k) = state_is k r.
Proof.
  unfold state_is. destruct (state r) as [s|]; simpl; [|reflexivity].
  destruct (String.eqb_spec s k) as [->|Hne].
  - pose proof (proj2 (String_as_OT.cmp_eq k k) eq_refl) as E.
    unfold String_as_OT.cmp in E. now rewrite E.
  - destruct (String.compare s k) eqn:E; try reflexivity.
    apply String_as_OT.cmp_eq in E. contradiction.
Qed.

Lemma rows_of_state (k : string) (rows : list Enrolment) :
  filter (fun r => same_key String.compare (state r) (Some k)) rows =
  filter (state_is k) rows.
Proof. apply filter_ext. intros r. apply same_key_state_is. Qed.

Lemma get_state_summary_table (r : Enrolment) (rows : list Enrolment)
    (df_biometric : dataset Biometric) (s : Summary) :
  get_state_summary (Table (r :: rows)) df_biometric = Ok s ->
  summary_enrolment s = Some (enrolment_by_state (r :: rows)).
Proof.
  unfold get_state_summary. cbn [empty negb rows_by column bind]. rewrite map_id.
  destruct df_biometric as [|[|r' rows']]; cbn [empty negb rows_by column bind];
    intros H; injection H as <-; reflexivity.
Qed.

(** On a loaded enrolment frame whose count columns are [int64], the
    state summary has one row per state that occurs in the data, in
    strictly ascending order of the state names, and the row of a state
    holds, for each age group, the sum over exactly the rows of that
    state, and as total the sum of the three. *)
Theorem state_summary_per_state (enr bio : Loader.frame)
    (r0 : Enrolment) (rows : list Enrolment)
    (df_biometric : dataset Biometric) (s : Summary) :
  Data.enrolment enr = Some (Table (r0 :: rows)) ->
  Data.biometric bio = Some df_biometric ->
  get_state_summary (Table (r0 :: rows)) df_biometric = Ok s ->
  exists out,
    summary_enrolment s = Some out /\
    StronglySorted (fun a b => String.compare a b = Lt) (map es_state out) /\
    (forall st, In st (map es_state out) <-> In (Some st) (map state (r0 :: rows))) /\
    (forall r, In r out ->
       es_age_0_5 r = Int64.sum (map age_0_5 (filter (state_is (es_state r)) (r0 :: rows))) /\
       es_age_5_17 r = Int64.sum (map age_5_17 (filter (state_is (es_state r)) (r0 :: rows))) /\
       es_age_18_greater r =
         Int64.sum (map age_18_greater (filter (state_is (es_state r)) (r0 :: rows))) /\
       total_enrolment r =
         Int64.add (Int64.add (es_age_0_5 r) (es_age_5_17 r)) (es_age_18_greater r)).
Proof.
  intros _ _ H. apply get_state_summary_table in H.
  exists (enrolment_by_state (r0 :: rows)). split; [exact H|].
  destruct (GroupByMore.groupby_structure String.compare state (r0 :: rows))
    as [Ha [Hg Hk]].
  unfold enrolment_by_state. rewrite map_map. cbn [es_state].
  split; [exact Ha|]. split; [exact Hk|].
  intros r Hr. apply in_map_iff in Hr as [[k g] [<- Hin]]. cbn [fst snd es_state
    es_age_0_5 es_age_5_17 es_age_18_greater total_enrolment].
  rewrite <- rows_of_state, <- (Hg k g Hin). auto.
Qed.

Lemma state_summary_per_state_witness :
  exists s out,
    get_state_summary (Table Samples.enrolment_rows) (Table Samples.biometric_rows) = Ok s /\
    summary_enrolment s = Some out /\
    map es_state out = ["X"; "Y"] /\
    map es_age_0_5 out = [8%Z; 4%Z].
Proof.
  eexists.
  destruct (state_summary_per_state Samples.enrolment_frame Samples.biometric_frame
              _ _ (Table Samples.biometric_rows) _ eq_refl eq_refl eq_refl)
    as [out [Hout _]].
  exists out. split; [reflexivity|]. split; [exact Hout|].
  injection Hout as <-. split; reflexivity.
Defined.

(** *** The order of the rows *)

Lemma empty_perm {R : Type} (rows rows' : list R) :
  Permutation rows rows' -> empty (Table rows) = empty (Table rows').
Proof.
  intros H. destruct rows as [|r rows], rows' as [|r' rows']; try reflexivity.
  - apply Permutation_nil in H. discriminate.
  - apply Permutation_sym, Permutation_nil in H. discriminate.
Qed.

Lemma total_of_perm {R : Type} (name : string) (field : R -> Z) (rows rows' : list R) :
  Permutation rows rows' ->
  total_of name field (Table rows) = total_of name field (Table rows').
Proof.
  intros H. unfold total_of. rewrite (empty_perm rows rows' H).
  destruct (empty (Table rows')); [reflexivity|]. unfold column, bind. f_equal.
  apply Int64Facts.sum_perm, Permutation_map, H.
Qed.

Lemma sum_map_perm {R : Type} (col : R -> Z) (l l' : list R) :
  Permutation l l' -> Int64.sum (map col l) = Int64.sum (map col l').
Proof. intros H. apply Int64Facts.sum_perm, Permutation_map, H. Qed.

Lemma enrolment_by_state_perm (rows rows' : list Enrolment) :
  Permutation rows rows' -> enrolment_by_state rows = enrolment_by_state rows'.
Proof.
  intros H.
  set (agg := fun g : list Enrolment =>
                (Int64.sum (map age_0_5 g), Int64.sum (map age_5_17 g),
                 Int64.sum (map age_18_greater g))).
  set (row := fun kv : string * (Z * Z * Z) =>
                let '(a, b, c) := snd kv in
                mkEnrolmentByState (fst kv) a b c (Int64.add (Int64.add a b) c)).
  assert (E : forall rs, map row (map (fun kg => (fst kg, agg (snd kg))) (groupby String.compare state rs)) =
                         enrolment_by_state rs).
  { intros rs. rewrite map_map. apply map_ext. intros [k g]. reflexivity. }
  rewrite <- (E rows), <- (E rows'). f_equal.
  refine (GroupByMore.aggregate_perm _ _ agg rows rows' _ H).
  intros l l' Hl. unfold agg.
  now rewrite (sum_map_perm age_0_5 l l' Hl), (sum_map_perm age_5_17 l l' Hl),
    (sum_map_perm age_18_greater l l' Hl).
Qed.

Lemma biometric_by_state_perm (rows rows' : list Biometric) :
  Permutation rows rows' -> biometric_by_state rows = biometric_by_state rows'.
Proof.
  intros H.
  set (agg := fun g : list Biometric =>
                (Int64.sum (map bio_age_5_17 g), Int64.sum (map bio_age_17_ g))).
  set (row := fun kv : string * (Z * Z) =>
                let '(a, b) := snd kv in
                mkBiometricByState (fst kv) a b (Int64.add a b)).
  assert (E : forall rs, map row (map (fun kg => (fst kg, agg (snd kg))) (groupby String.compare bio_state rs)) =
                         biometric_by_state rs).
  { intros rs. rewrite map_map. apply map_ext. intros [k g]. reflexivity. }
  rewrite <- (E rows), <- (E rows'). f_equal.
  refine (GroupByMore.aggregate_perm _ _ agg rows rows' _ H).
  intros l l' Hl. unfold agg.
  now rewrite (sum_map_perm bio_age_5_17 l l' Hl), (sum_map_perm bio_age_17_ l l' Hl).
Qed.

Lemma trend_perm (rows rows' : list Enrolment) :
  Permutation rows rows' -> trend rows = trend rows'.
Proof.
  intros H.
  set (agg := fun g : list Enrolment =>
                (Int64.sum (map age_0_5 g), Int64.sum (map age_5_17 g),
                 Int64.sum (map age_18_greater g))).
  set (row := fun kv : Dates.date * (Z * Z * Z) =>
                let '(a, b, c) := snd kv in mkTrendRow (strftime (fst kv)) a b c).
  assert (E : forall rs, map row (map (fun kg => (fst kg, agg (snd kg))) (groupby Dates.compare date rs)) =
                         trend rs).
  { intros rs. rewrite map_map. apply map_ext. intros [k g]. reflexivity. }
  rewrite <- (E rows), <- (E rows'). f_equal.
  refine (GroupByMore.aggregate_perm _ _ agg rows rows' _ H).
  intros l l' Hl. unfold agg.
  now rewrite (sum_map_perm age_0_5 l l' Hl), (sum_map_perm age_5_17 l l' Hl),
    (sum_map_perm age_18_greater l l' Hl).
Qed.

Lemma group_sum_perm {R K : Type} (cmp : K -> K -> comparison) {laws : OrderLaws cmp}
    (key : R -> option K) (col : R -> Z) (rows rows' : list R) :
  Permutation rows rows' -> group_sum cmp key col rows = group_sum cmp key col rows'.
Proof.
  intros H. unfold group_sum.
  refine (GroupByMore.aggregate_perm cmp key (fun g => Int64.sum (map col g)) rows rows' _ H).
  intros l l' Hl. now apply sum_map_perm.
Qed.

Lemma filter_state_perm (st : option string) (rows rows' : list Enrolment) :
  Permutation rows rows' -> Permutation (filter_state st rows) (filter_state st rows').
Proof.
  intros H. destruct st as [[|c s]|]; simpl; try exact H.
  now apply GroupByMore.Permutation_filter.
Qed.

Lemma district_totals_perm (rows rows' : list Enrolment) :
  Permutation rows rows' -> district_totals rows = district_totals rows'.
Proof.
  intros H. unfold district_totals. f_equal.
  apply (group_sum_perm (cmp_pair String.compare String.compare)). exact H.
Qed.

(** On count columns of type [int64] no query looks at the order of the
    rows, hence at the order in which the files were merged: two loaded
    datasets with the same rows in different orders get the same answer
    from every query. *)
Theorem queries_ignore_row_order (enr enr' dem bio bio' : Loader.frame)
    (rows rows' : list Enrolment)
    (brows brows' : list Biometric) (df_demographic : dataset Demographic)
    (sort_values : list RankRow -> list RankRow) (st : option string) :
  Data.enrolment enr = Some (Table rows) ->
  Data.enrolment enr' = Some (Table rows') ->
  Data.biometric bio = Some (Table brows) ->
  Data.biometric bio' = Some (Table brows') ->
  Data.demographic dem = Some df_demographic ->
  Permutation rows rows' -> Permutation brows brows' ->
  get_stats (Table rows) df_demographic (Table brows) =
    get_stats (Table rows') df_demographic (Table brows') /\
  get_state_summary (Table rows) (Table brows) =
    get_state_summary (Table rows') (Table brows') /\
  get_trends (Table rows) = get_trends (Table rows') /\
  get_district_rankings sort_values (Table rows) st =
    get_district_rankings sort_values (Table rows') st.
Proof.
  intros _ _ _ _ _ H Hb. split; [|split; [|split]].
  - unfold get_stats.
    rewrite (total_of_perm "age_0_5" age_0_5 rows rows' H).
    rewrite (total_of_perm "age_5_17" age_5_17 rows rows' H).
    rewrite (total_of_perm "age_18_greater" age_18_greater rows rows' H).
    rewrite (total_of_perm "bio_age_5_17" bio_age_5_17 brows brows' Hb).
    unfold len. now rewrite (Permutation_length H), (Permutation_length Hb).
  - unfold get_state_summary.
    rewrite (empty_perm rows rows' H), (empty_perm brows brows' Hb).
    unfold rows_by, column. rewrite !map_id. cbn [bind].
    now rewrite (enrolment_by_state_perm rows rows' H),
      (biometric_by_state_perm brows brows' Hb).
  - unfold get_trends. rewrite (empty_perm rows rows' H).
    unfold rows_by, column. rewrite !map_id. cbn [bind].
    now rewrite (trend_perm rows rows' H).
  - unfold get_district_rankings. rewrite (empty_perm rows rows' H).
    unfold rows_by, column. rewrite !map_id. cbn [bind].
    now rewrite (district_totals_perm _ _ (filter_state_perm st rows rows' H)).
Qed.

Lemma queries_ignore_row_order_witness :
  get_trends (Table Samples.enrolment_rows) = get_trends (Table Samples.enrolment_rows') /\
  get_state_summary (Table Samples.enrolment_rows) (Table Samples.biometric_rows) =
    get_state_summary (Table Samples.enrolment_rows') (Table Samples.biometric_rows).
Proof.
  destruct (queries_ignore_row_order
              Samples.enrolment_frame Samples.enrolment_frame' Samples.demographic_frame
              Samples.biometric_frame Samples.biometric_frame
              Samples.enrolment_rows Samples.enrolment_rows'
              Samples.biometric_rows Samples.biometric_rows
              (Table Samples.demographic_rows) stable_sort None
              eq_refl eq_refl eq_refl eq_refl eq_refl (perm_swap _ _ _)
              (Permutation_refl _)) as [_ [Hs [Ht _]]].
  split; [exact Ht | exact Hs].
Defined.

End BackendFacts.

(** ** Totals, rankings and trends *)

Module QueryFacts.

Import Dates Data GroupBy Backend Orders.

Local Open Scope Z_scope.

Lemma wrap_sum_of_wrapped {A : Type} (u : A -> Z) (l : list A) :
  Int64.wrap (Int64.exact_sum (map (fun x => Int64.wrap (u x)) l)) =
  Int64.wrap (Int64.exact_sum (map u l)).
Proof.
  induction l as [|x l IH]; simpl; [reflexivity|].
  rewrite Int64Facts.wrap_add_l, <- Int64Facts.wrap_add_r, IH, Int64Facts.wrap_add_r.
  reflexivity.
Qed.

Lemma exact_sum_plus {A : Type} (f g : A -> Z) (l : list A) :
  Int64.exact_sum (map (fun x => f x + g x) l) =
  Int64.exact_sum (map f l) + Int64.exact_sum (map g l).
Proof. induction l as [|x l IH]; simpl; [reflexivity | rewrite IH; ring]. Qed.

Lemma wrap_three (a b c : Z) :
  Int64.wrap (Int64.wrap (Int64.wrap a + Int64.wrap b) + Int64.wrap c) =
  Int64.wrap (a + b + c).
Proof.
  rewrite Int64Facts.wrap_add_l, Int64Facts.wrap_add_r.
  replace (Int64.wrap a + Int64.wrap b + c) with (Int64.wrap a + (Int64.wrap b + c)) by ring.
  rewrite Int64Facts.wrap_add_l.
  replace (a + (Int64.wrap b + c)) with (a + c + Int64.wrap b) by ring.
  rewrite Int64Facts.wrap_add_r. f_equal. ring.
Qed.

Lemma wrap_inner (a b c : Z) :
  Int64.wrap (Int64.wrap (a + b) + c) = Int64.wrap (a + b + c).
Proof. apply Int64Facts.wrap_add_l. Qed.

(** The sum of the row-wise sums of three columns is the sum of the three
    column sums, in 64-bit arithmetic. *)
Lemma sum_of_row_totals {A : Type} (f g h : A -> Z) (l : list A) :
  Int64.sum (map (fun x => Int64.add (Int64.add (f x) (g x)) (h x)) l) =
  Int64.add (Int64.add (Int64.sum (map f l)) (Int64.sum (map g l))) (Int64.sum (map h l)).
Proof.
  rewrite !Int64Facts.sum_wrap. unfold Int64.add.
  rewrite wrap_three.
  rewrite (wrap_sum_of_wrapped (fun x => Int64.wrap (f x + g x) + h x) l).
  induction l as [|x l IH]; simpl; [reflexivity|].
  rewrite <- Int64Facts.wrap_add_r, IH, Int64Facts.wrap_add_r.
  rewrite <- Z.add_assoc, Int64Facts.wrap_add_l. f_equal. ring.
Qed.

(** *** [/stats] against the state summary *)

Lemma total_of_table {R : Type} (name : string) (field : R -> Z) (r : R) (rows : list R) :
  total_of name field (Table (r :: rows)) = Ok (Int64.sum (map field (r :: rows))).
Proof. reflexivity. Qed.

Lemma summary_column (col : Enrolment -> Z) (proj : EnrolmentByState -> Z)
    (rows : list Enrolment) :
  (forall k g, proj (mkEnrolmentByState k
                       (Int64.sum (map age_0_5 g)) (Int64.sum (map age_5_17 g))
                       (Int64.sum (map age_18_greater g))
                       (Int64.add (Int64.add (Int64.sum (map age_0_5 g))
                                             (Int64.sum (map age_5_17 g)))
                                  (Int64.sum (map age_18_greater g)))) =
               Int64.sum (map col g)) ->
  (forall r, In r rows -> state r <> None) ->
  Int64.sum (map proj (enrolment_by_state rows)) = Int64.sum (map col rows).
Proof.
  intros Hproj Hall.
  rewrite <- (keyed_all state rows Hall) at 2.
  rewrite <- (group_sum_total String.compare state col rows).
  f_equal. unfold enrolment_by_state, group_sum. rewrite !map_map.
  apply map_ext. intros [k g]. apply Hproj.
Qed.

(** On count columns of type [int64], when no row lacks a state, the
    state summary adds up to [/stats]: over the rows of the summary, each
    age column sums to the total of that column in [/stats], and the
    totals of the states sum to the sum of the three totals. *)
Theorem stats_match_state_summary (enr dem bio : Loader.frame)
    (r0 : Enrolment) (rows : list Enrolment)
    (df_demographic : dataset Demographic) (df_biometric : dataset Biometric)
    (st : Stats) (s : Summary) :
  Data.enrolment enr = Some (Table (r0 :: rows)) ->
  Data.demographic dem = Some df_demographic ->
  Data.biometric bio = Some df_biometric ->
  (forall r, In r (r0 :: rows) -> state r <> None) ->
  get_stats (Table (r0 :: rows)) df_demographic df_biometric = Ok st ->
  get_state_summary (Table (r0 :: rows)) df_biometric = Ok s ->
  exists out,
    summary_enrolment s = Some out /\
    Int64.sum (map es_age_0_5 out) = age_0_5_total (enrolment_stats st) /\
    Int64.sum (map es_age_5_17 out) = age_5_17_total (enrolment_stats st) /\
    Int64.sum (map es_age_18_greater out) = age_18_greater_total (enrolment_stats st) /\
    Int64.sum (map total_enrolment out) =
      Int64.add (Int64.add (age_0_5_total (enrolment_stats st))
                           (age_5_17_total (enrolment_stats st)))
                (age_18_greater_total (enrolment_stats st)).
Proof.
  intros _ _ _ Hall Hstats Hsum.
  apply BackendFacts.get_state_summary_table in Hsum.
  exists (enrolment_by_state (r0 :: rows)). split; [exact Hsum|].
  unfold get_stats in Hstats. rewrite !total_of_table in Hstats. cbn [bind] in Hstats.
  destruct (total_of_ok "demo_age_5_17" demo_age_5_17 df_demographic) as [x4 H4].
  destruct (total_of_ok "bio_age_5_17" bio_age_5_17 df_biometric) as [x5 H5].
  rewrite H4, H5 in Hstats. cbn [bind] in Hstats.
  assert (Hst : st = mkStats (mkEnrolmentStats (len (Table (r0 :: rows)))
                                (Int64.sum (map age_0_5 (r0 :: rows)))
                                (Int64.sum (map age_5_17 (r0 :: rows)))
                                (Int64.sum (map age_18_greater (r0 :: rows))))
                             (len df_demographic, x4) (len df_biometric, x5))
    by congruence.
  rewrite Hst. cbn [enrolment_stats age_0_5_total age_5_17_total age_18_greater_total].
  assert (E1 : Int64.sum (map es_age_0_5 (enrolment_by_state (r0 :: rows))) =
               Int64.sum (map age_0_5 (r0 :: rows)))
    by (apply summary_column; [reflexivity | exact Hall]).
  assert (E2 : Int64.sum (map es_age_5_17 (enrolment_by_state (r0 :: rows))) =
               Int64.sum (map age_5_17 (r0 :: rows)))
    by (apply summary_column; [reflexivity | exact Hall]).
  assert (E3 : Int64.sum (map es_age_18_greater (enrolment_by_state (r0 :: rows))) =
               Int64.sum (map age_18_greater (r0 :: rows)))
    by (apply summary_column; [reflexivity | exact Hall]).
  split; [exact E1|]. split; [exact E2|]. split; [exact E3|].
  rewrite <- E1, <- E2, <- E3, <- sum_of_row_totals.
  f_equal. apply map_ext_in. intros r Hr.
  unfold enrolment_by_state in Hr. apply in_map_iff in Hr as [[k g] [<- _]]. reflexivity.
Qed.

Lemma stats_match_state_summary_witness :
  exists st s out,
    get_stats (Table Samples.enrolment_rows) (Table Samples.demographic_rows)
              (Table Samples.biometric_rows) = Ok st /\
    get_state_summary (Table Samples.enrolment_rows) (Table Samples.biometric_rows) = Ok s /\
    summary_enrolment s = Some out /\
    Int64.sum (map es_age_0_5 out) = age_0_5_total (enrolment_stats st) /\
    age_0_5_total (enrolment_stats st) = 12.
Proof.
  exists (mkStats (mkEnrolmentStats 3 12 15 18) (1, 5) (2, 3)).
  exists (mkSummary (Some (enrolment_by_state Samples.enrolment_rows))
                    (Some (biometric_by_state Samples.biometric_rows))).
  destruct (stats_match_state_summary
              Samples.enrolment_frame Samples.demographic_frame Samples.biometric_frame
              (mkEnrolment (Some (mkDate 2024 3 1)) (Some "X") (Some "A") 1 2 3)
              [ mkEnrolment (Some (mkDate 2024 1 15)) (Some "Y") (Some "B") 4 5 6;
                mkEnrolment (Some (mkDate 2024 3 1)) (Some "X") (Some "C") 7 8 9 ]
              (Table Samples.demographic_rows) (Table Samples.biometric_rows)
              (mkStats (mkEnrolmentStats 3 12 15 18) (1, 5) (2, 3))
              (mkSummary (Some (enrolment_by_state Samples.enrolment_rows))
                         (Some (biometric_by_state Samples.biometric_rows)))
              eq_refl eq_refl eq_refl)
    as [out [Hout [H1 _]]].
  - intros r [<-|[<-|[<-|[]]]]; discriminate.
  - reflexivity.
  - reflexivity.
  - exists out. split; [reflexivity|]. split; [reflexivity|].
    split; [exact Hout|]. split; [exact H1 | reflexivity].
Defined.

(** *** The rows of the district rankings *)

Lemma compare_is_eqb (a b : string) :
  match String.compare a b with Eq => true | _ => false end = String.eqb a b.
Proof.
  destruct (String.eqb_spec a b) as [->|Hne].
  - pose proof (proj2 (String_as_OT.cmp_eq b b) eq_refl) as E.
    unfold String_as_OT.cmp in E. now rewrite E.
  - destruct (String.compare a b) eqn:E; try reflexivity.
    apply String_as_OT.cmp_eq in E. contradiction.
Qed.

Lemma same_key_district_is (s d : string) (e : Enrolment) :
  same_key (cmp_pair String.compare String.compare) (state_district e) (Some (s, d)) =
  district_is s d e.
Proof.
  unfold district_is. destruct (state_district e) as [[s' d']|]; simpl; [|reflexivity].
  unfold cmp_pair; simpl. rewrite <- !compare_is_eqb.
  destruct (String.compare s' s); reflexivity.
Qed.

Lemma In_firstn {A : Type} (n : nat) (l : list A) (x : A) :
  In x (firstn n l) -> In x l.
Proof.
  intros H. rewrite <- (firstn_skipn n l). apply in_or_app. now left.
Qed.

Lemma NoDup_firstn {A : Type} (n : nat) (l : list A) :
  NoDup l -> NoDup (firstn n l).
Proof.
  intros H. rewrite <- (firstn_skipn n l) in H. now apply NoDup_app_remove_r in H.
Qed.

Lemma In_district_totals (rows : list Enrolment) (r : RankRow) :
  In r (district_totals rows) ->
  filter (district_is (rk_state r) (rk_district r)) rows <> [] /\
  total r =
    Int64.sum (map row_total (filter (district_is (rk_state r) (rk_district r)) rows)).
Proof.
  unfold district_totals, group_sum. intros H.
  apply in_map_iff in H as [[[s d] v] [<- H]]. cbn [fst snd rk_state rk_district total].
  apply (GroupByMore.In_aggregate (cmp_pair String.compare String.compare) state_district
           (fun g => Int64.sum (map row_total g)) rows (s, d) v) in H as [Hin ->].
  unfold rows_of_key.
  rewrite (filter_ext _ _ (same_key_district_is s d)). split; [|reflexivity].
  unfold key_tuples in Hin. apply in_map_iff in Hin as [e [He Hin]].
  intros Hnil.
  assert (Hmem : In e (filter (district_is s d) rows)).
  { apply filter_In. split; [exact Hin|]. rewrite <- same_key_district_is, He.
    simpl. now rewrite (GroupByFacts.cmp_refl (cmp_pair String.compare String.compare)). }
  rewrite Hnil in Hmem. destruct Hmem.
Qed.

Lemma district_totals_keys (rows : list Enrolment) :
  NoDup (map (fun r => (rk_state r, rk_district r)) (district_totals rows)).
Proof.
  unfold district_totals, group_sum. rewrite !map_map. cbn [rk_state rk_district fst snd].
  rewrite (map_ext _ fst) by (intros [[s d] g]; reflexivity).
  exact (GroupByFacts.ascending_NoDup (cmp_pair String.compare String.compare) _
           (proj2 (GroupByFacts.groupby_invariants
                     (cmp_pair String.compare String.compare) state_district rows))).
Qed.

(** On a loaded enrolment frame whose count columns are [int64], every
    row of the district rankings stands for a district that has rows in
    the data that passed the state filter, its total is the sum of the
    row totals of exactly those rows, no district of a state occurs
    twice, and with a state filter every row is of that state. *)
Theorem district_rankings_rows (sort_values : list RankRow -> list RankRow)
    (enr : Loader.frame) (rows : list Enrolment) (st : option string) (out : list RankRow) :
  sorts_descending sort_values ->
  Data.enrolment enr = Some (Table rows) ->
  get_district_rankings sort_values (Table rows) st = Ok out ->
  NoDup (map (fun r => (rk_state r, rk_district r)) out) /\
  (forall r, In r out ->
     filter (district_is (rk_state r) (rk_district r)) (filter_state st rows) <> [] /\
     total r = Int64.sum (map row_total
                 (filter (district_is (rk_state r) (rk_district r)) (filter_state st rows)))) /\
  (forall s r, st = Some s -> s <> EmptyString -> In r out -> rk_state r = s).
Proof.
  intros Hsort _ Hout.
  rewrite (get_district_rankings_table sort_values rows st Hsort) in Hout.
  assert (Hout' : out = firstn 20 (sort_values (district_totals (filter_state st rows))))
    by congruence.
  clear Hout. destruct (Hsort (district_totals (filter_state st rows))) as [Hperm _].
  assert (Hin : forall r, In r out -> In r (district_totals (filter_state st rows))).
  { intros r Hr. rewrite Hout' in Hr. apply In_firstn in Hr.
    exact (Permutation_in _ (Permutation_sym Hperm) Hr). }
  split; [|split].
  - rewrite Hout', <- firstn_map. apply NoDup_firstn.
    apply (Permutation_NoDup (Permutation_map _ Hperm)), district_totals_keys.
  - intros r Hr. apply In_district_totals, Hin, Hr.
  - intros s r -> Hs Hr. destruct (In_district_totals _ r (Hin r Hr)) as [Hne _].
    destruct (filter (district_is (rk_state r) (rk_district r)) (filter_state (Some s) rows))
      as [|e l] eqn:E; [contradiction|].
    assert (He : In e (filter (district_is (rk_state r) (rk_district r))
                         (filter_state (Some s) rows))) by (rewrite E; now left).
    apply filter_In in He as [He Hd].
    destruct s as [|c s]; [contradiction|]. cbn [filter_state] in He.
    apply filter_In in He as [_ Hs']. unfold state_is in Hs'.
    unfold district_is, state_district in Hd.
    destruct (state e) as [s'|]; [|discriminate].
    destruct (district e) as [d'|]; [|discriminate].
    apply andb_prop in Hd as [Hd _]. apply String.eqb_eq in Hd, Hs'. congruence.
Qed.

Lemma district_rankings_rows_witness :
  get_district_rankings stable_sort (Table Samples.enrolment_rows) (Some "X") =
    Ok [ mkRankRow "X" "C" 24; mkRankRow "X" "A" 6 ] /\
  rk_state (mkRankRow "X" "C" 24) = "X" /\
  total (mkRankRow "X" "C" 24) =
    Int64.sum (map row_total
      (filter (district_is "X" "C") (filter_state (Some "X") Samples.enrolment_rows))).
Proof.
  destruct (district_rankings_rows stable_sort Samples.enrolment_frame
              Samples.enrolment_rows (Some "X")
              [ mkRankRow "X" "C" 24; mkRankRow "X" "A" 6 ]
              stable_sort_sorts eq_refl eq_refl)
    as [_ [Htot Hst]].
  split; [reflexivity|]. split.
  - apply (Hst "X" (mkRankRow "X" "C" 24)); [reflexivity | discriminate | now left].
  - exact (proj2 (Htot (mkRankRow "X" "C" 24) (or_introl eq_refl))).
Defined.

(** *** The rows of the trends *)

Lemma digit_char_inj (a b : Z) : digit_char a = digit_char b -> a mod 10 = b mod 10.
Proof.
  intros H. apply (f_equal digit) in H. now rewrite !DatesFacts.digit_digit_char in H.
Qed.

Lemma four_digits_inj (a b : Z) :
  0 <= a <= 9999 -> 0 <= b <= 9999 -> four_digits a = four_digits b -> a = b.
Proof.
  intros Ha Hb H. unfold four_digits in H.
  assert (H1 : digit_char (a / 1000) = digit_char (b / 1000)) by congruence.
  assert (H2 : digit_char (a / 100) = digit_char (b / 100)) by congruence.
  assert (H3 : digit_char (a / 10) = digit_char (b / 10)) by congruence.
  assert (H4 : digit_char a = digit_char b) by congruence.
  apply digit_char_inj in H1, H2, H3, H4. clear H.
  Z.div_mod_to_equations. lia.
Qed.

Lemma two_digits_inj (a b : Z) :
  0 <= a <= 99 -> 0 <= b <= 99 -> two_digits a = two_digits b -> a = b.
Proof.
  intros Ha Hb H. unfold two_digits in H.
  assert (H1 : digit_char (a / 10) = digit_char (b / 10)) by congruence.
  assert (H2 : digit_char a = digit_char b) by congruence.
  apply digit_char_inj in H1, H2. clear H.
  Z.div_mod_to_equations. lia.
Qed.

Lemma append_four_inj (a b : Z) (s t : string) :
  (four_digits a ++ s)%string = (four_digits b ++ t)%string ->
  four_digits a = four_digits b /\ s = t.
Proof.
  unfold four_digits. cbn [append]. intros H.
  split; congruence.
Qed.

Lemma append_two_inj (a b : Z) (s t : string) :
  (two_digits a ++ s)%string = (two_digits b ++ t)%string ->
  two_digits a = two_digits b /\ s = t.
Proof.
  unfold two_digits. cbn [append]. intros H.
  split; congruence.
Qed.

(** Different days of the calendar have different texts. *)
Lemma strftime_inj (d d' : Dates.date) :
  valid d -> valid d' -> strftime d = strftime d' -> d = d'.
Proof.
  destruct d as [y m dd], d' as [y' m' dd']. unfold valid, strftime; cbn [year month day].
  intros [Hy [Hm Hd]] [Hy' [Hm' Hd']] H.
  pose proof (DatesFacts.days_in_month_le_31 y m).
  pose proof (DatesFacts.days_in_month_le_31 y' m').
  apply append_four_inj in H as [Hyy H].
  assert (H' : (two_digits m ++ "-" ++ two_digits dd)%string =
               (two_digits m' ++ "-" ++ two_digits dd')%string)
    by (cbn [append] in H |- *; congruence).
  apply append_two_inj in H' as [Hmm H'].
  assert (Hdd : two_digits dd = two_digits dd') by (cbn [append] in H'; congruence).
  apply four_digits_inj in Hyy; [|lia|lia].
  apply two_digits_inj in Hmm; [|lia|lia].
  apply two_digits_inj in Hdd; [|lia|lia].
  now subst.
Qed.

Lemma Forall2_map_in {A B C : Type} (P : B -> C -> Prop) (f : A -> B) (g : A -> C)
    (l : list A) :
  (forall x, In x l -> P (f x) (g x)) -> Forall2 P (map f l) (map g l).
Proof.
  induction l as [|x l IH]; simpl; intros H; constructor.
  - apply H. now left.
  - apply IH. intros y Hy. apply H. now right.
Qed.

Lemma digit_char_char (z : Z) : digit_char z = char_of_digit (Z.to_nat (z mod 10)).
Proof. reflexivity. Qed.

(** [strftime('%Y-%m-%d')] writes a day of the calendar with the four
    digits of its year, a dash, the two digits of its month, a dash and
    the two digits of its day. *)
Lemma strftime_written (d : Dates.date) : valid d -> written_ymd d (strftime d).
Proof.
  destruct d as [y m dd]. unfold valid, strftime; cbn [year month day].
  intros [Hy [Hm Hd]]. pose proof (DatesFacts.days_in_month_le_31 y m) as H31.
  exists (Z.to_nat ((y / 1000) mod 10)), (Z.to_nat ((y / 100) mod 10)),
         (Z.to_nat ((y / 10) mod 10)), (Z.to_nat (y mod 10)),
         (Z.to_nat ((m / 10) mod 10)), (Z.to_nat (m mod 10)),
         (Z.to_nat ((dd / 10) mod 10)), (Z.to_nat (dd mod 10)).
  split; [|split; [|split; [|split]]].
  - repeat split; apply Nat2Z.inj_lt; rewrite Z2Nat.id;
      try (apply Z.mod_pos_bound; lia); apply Z.mod_pos_bound; lia.
  - unfold four_digits, two_digits. cbn [append]. rewrite !digit_char_char. reflexivity.
  - cbn [year]. clear Hm Hd H31. Z.div_mod_to_equations. lia.
  - cbn [month]. clear Hy Hd H31. Z.div_mod_to_equations. lia.
  - cbn [day]. clear Hy Hm. Z.div_mod_to_equations. lia.
Qed.

(** On a loaded enrolment frame whose count columns are [int64], the
    trends have one row per date that occurs in the data, in strictly
    ascending order of the dates, and the row of a date holds the column
    sums over exactly the rows of that date.  When the dates
    are days of the calendar, as the loader makes them, the date of a
    row is written with the four digits of the year, a dash, the two
    digits of the month, a dash and the two digits of the day, and no
    two rows have the same text. *)
Theorem trends_per_date (enr : Loader.frame) (r0 : Enrolment) (rows : list Enrolment)
    (out : list TrendRow) :
  Data.enrolment enr = Some (Table (r0 :: rows)) ->
  get_trends (Table (r0 :: rows)) = Ok out ->
  exists ds,
    List.length out = List.length ds /\
    StronglySorted (fun a b => Dates.compare a b = Lt) ds /\
    (forall d, In d ds <-> In (Some d) (map Data.date (r0 :: rows))) /\
    Forall2 (fun d t =>
               tr_age_0_5 t = Int64.sum (map age_0_5 (filter (date_is d) (r0 :: rows))) /\
               tr_age_5_17 t = Int64.sum (map age_5_17 (filter (date_is d) (r0 :: rows))) /\
               tr_age_18_greater t =
                 Int64.sum (map age_18_greater (filter (date_is d) (r0 :: rows))))
            ds out /\
    ((forall r d, In r (r0 :: rows) -> Data.date r = Some d -> valid d) ->
     Forall2 (fun d t => written_ymd d (tr_date t)) ds out /\
     NoDup (map tr_date out)).
Proof.
  intros _. unfold get_trends. cbn [empty rows_by column bind]. rewrite map_id.
  intros H. assert (Hout : out = trend (r0 :: rows)) by congruence. clear H.
  destruct (GroupByMore.groupby_structure Dates.compare Data.date (r0 :: rows))
    as [Ha [Hg Hk]].
  exists (map fst (groupby Dates.compare Data.date (r0 :: rows))).
  assert (Htexts : map tr_date out =
                   map strftime (map fst (groupby Dates.compare Data.date (r0 :: rows)))).
  { rewrite Hout. unfold trend. rewrite !map_map. reflexivity. }
  split; [rewrite Hout; unfold trend; now rewrite !length_map|].
  split; [exact Ha|]. split; [exact Hk|]. split.
  - rewrite Hout. unfold trend. apply Forall2_map_in.
    intros [k g] Hin. cbn [fst snd tr_age_0_5 tr_age_5_17 tr_age_18_greater].
    unfold date_is. rewrite <- (Hg k g Hin). auto.
  - intros Hvalid.
    assert (Hv : forall d, In d (map fst (groupby Dates.compare Data.date (r0 :: rows))) ->
                           valid d).
    { intros d Hd. apply Hk in Hd. apply in_map_iff in Hd as [r [Hr Hin]].
      exact (Hvalid r d Hin Hr). }
    split.
    + rewrite Hout. unfold trend. apply Forall2_map_in.
      intros [k g] Hin. cbn [fst tr_date]. apply strftime_written, Hv.
      apply in_map_iff. now exists (k, g).
    + rewrite Htexts. apply Finite.Injective_map_NoDup_in.
      * intros d d' Hd Hd' Heq. apply strftime_inj; [now apply Hv | now apply Hv | exact Heq].
      * exact (GroupByFacts.ascending_NoDup Dates.compare _ Ha).
Qed.

Lemma trends_per_date_witness :
  exists out ds,
    get_trends (Table Samples.enrolment_rows) = Ok out /\
    map tr_date out = ["2024-01-15"; "2024-03-01"] /\
    Forall2 (fun d t => written_ymd d (tr_date t)) ds out /\
    ds = [mkDate 2024 1 15; mkDate 2024 3 1].
Proof.
  eexists.
  destruct (trends_per_date Samples.enrolment_frame _ _ _ eq_refl eq_refl)
    as [ds [_ [Hsorted [Hk [_ Hvalid]]]]].
  exists ds. split; [reflexivity|]. split; [reflexivity|].
  assert (Hds : ds = [mkDate 2024 1 15; mkDate 2024 3 1]).
  { destruct Hvalid as [Hw _].
    - intros r d [<-|[<-|[<-|[]]]] H; injection H as <-; vm_compute; intuition discriminate.
    - inversion Hw as [|d1 t1 ds1 out1 Hw1 Hrest]; subst.
      inversion Hrest as [|d2 t2 ds2 out2 Hw2 Hrest']; subst.
      inversion Hrest'; subst.
      assert (H1 : In d1 [d1; d2]) by now left.
      assert (H2 : In d2 [d1; d2]) by (right; now left).
      apply Hk in H1, H2. simpl in H1, H2.
      apply StronglySorted_inv in Hsorted as [_ Hlt].
      apply Forall_inv in Hlt.
      destruct H1 as [H1|[H1|[H1|[]]]], H2 as [H2|[H2|[H2|[]]]];
        injection H1 as <-; injection H2 as <-; try reflexivity; discriminate. }
  split; [|exact Hds].
  apply Hvalid.
  intros r d [<-|[<-|[<-|[]]]] H; injection H as <-; vm_compute; intuition discriminate.
Defined.

End QueryFacts.

(** ** The pages of the dashboard *)

Module PagesFacts.

Import Data GroupBy Frontend Pages Orders.

Lemma In_present {A : Type} (col : list (option A)) (a : A) :
  In a (present col) <-> In (Some a) col.
Proof.
  induction col as [|[x|] col IH]; simpl; [tauto| |].
  - rewrite IH. split; intros [H|H]; auto; left; congruence.
  - rewrite IH. split; [auto | intros [H|H]; [discriminate | exact H]].
Qed.

Lemma nunique_groups {R : Type} (key : R -> option string) (rows : list R) :
  nunique (map key rows) = Z.of_nat (List.length (groupby String.compare key rows)).
Proof.
  unfold nunique. f_equal. rewrite <- (length_map fst (groupby String.compare key rows)).
  apply Permutation_length, NoDup_Permutation.
  - apply NoDup_nodup.
  - exact (GroupByFacts.ascending_NoDup String.compare _
             (proj2 (GroupByFacts.groupby_invariants String.compare key rows))).
  - intros k. rewrite nodup_In, In_present.
    symmetry. apply (GroupByMore.groupby_structure String.compare key rows).
Qed.

Lemma executive_overview_table (e0 : Enrolment) (rows : list Enrolment)
    (df_demographic : dataset Demographic) (df_biometric : dataset Biometric) (o : Overview) :
  executive_overview (Table (e0 :: rows)) df_demographic df_biometric = Ok o ->
  kpi_enrolments o = Int64.sum (map total_enrolment (e0 :: rows)) /\
  kpi_states o = nunique (map state (e0 :: rows)) /\
  kpi_demographic o = len df_demographic.
Proof.
  unfold executive_overview. cbn [empty negb column bind].
  destruct df_biometric as [|[|b0 bio]]; cbn [empty negb column bind];
    intros H; injection H as <-; repeat split.
Qed.

(** On loaded frames whose count columns are [int64], the "States
    Covered" figure of the overview is the number of states of the state
    chart, and, when no row lacks a state, the "Unique Enrolments" figure
    is the sum of the bars of that chart. *)
Theorem overview_matches_state_chart (sort_states : list (string * Z) -> list (string * Z))
    (enr dem bio : Loader.frame) (e0 : Enrolment) (rows : list Enrolment)
    (df_demographic : dataset Demographic) (df_biometric : dataset Biometric) (o : Overview) :
  sorts_states sort_states ->
  Data.enrolment enr = Some (Table (e0 :: rows)) ->
  Data.demographic dem = Some df_demographic ->
  Data.biometric bio = Some df_biometric ->
  executive_overview (Table (e0 :: rows)) df_demographic df_biometric = Ok o ->
  kpi_states o = Z.of_nat (List.length (state_agg sort_states (e0 :: rows))) /\
  ((forall r, In r (e0 :: rows) -> state r <> None) ->
   kpi_enrolments o = Int64.sum (map snd (state_agg sort_states (e0 :: rows)))).
Proof.
  intros Hsort _ _ _ Ho. apply executive_overview_table in Ho as [He [Hs _]].
  unfold state_agg.
  destruct (Hsort (group_sum String.compare state total_enrolment (e0 :: rows))) as [Hperm _].
  split.
  - rewrite Hs, nunique_groups, <- (Permutation_length Hperm).
    unfold group_sum. now rewrite length_map.
  - intros Hall. rewrite He.
    rewrite <- (Int64Facts.sum_perm _ _ (Permutation_map snd Hperm)).
    rewrite group_sum_total. now rewrite (keyed_all state (e0 :: rows) Hall).
Qed.

Lemma insert_state_perm (x : string * Z) (l : list (string * Z)) :
  Permutation (x :: l) (insert_state x l).
Proof.
  induction l as [|y l IH]; simpl; [reflexivity|].
  destruct (snd x <? snd y)%Z; [|reflexivity].
  rewrite perm_swap. now apply perm_skip.
Qed.

Lemma insert_state_sorted (x : string * Z) (l : list (string * Z)) :
  Sorted (fun a b => (snd b <= snd a)%Z) l ->
  Sorted (fun a b => (snd b <= snd a)%Z) (insert_state x l).
Proof.
  induction 1 as [|y l Hs IH Hhd]; simpl; [repeat constructor|].
  destruct (snd x <? snd y)%Z eqn:E.
  - apply Z.ltb_lt in E. constructor; [exact IH|].
    destruct l as [|z l]; simpl.
    + constructor. lia.
    + destruct (snd x <? snd z)%Z; constructor; [now apply HdRel_inv in Hhd | lia].
  - apply Z.ltb_ge in E. constructor; [now constructor|]. constructor. exact E.
Qed.

Lemma stable_sort_states_sorts : sorts_states stable_sort_states.
Proof.
  intros l. induction l as [|x l [IHp IHs]]; simpl; [split; constructor|]. split.
  - rewrite <- insert_state_perm. now apply perm_skip.
  - now apply insert_state_sorted.
Qed.

Lemma overview_matches_state_chart_witness :
  exists o,
    executive_overview (Table Samples.enrolment_rows) (Table Samples.demographic_rows)
                       (Table Samples.biometric_rows) = Ok o /\
    kpi_states o = 2%Z /\
    kpi_enrolments o =
      Int64.sum (map snd (state_agg stable_sort_states Samples.enrolment_rows)).
Proof.
  exists (mkOverview 45 7 (overall_coverage 7 45) 1 2).
  destruct (overview_matches_state_chart stable_sort_states
              Samples.enrolment_frame Samples.demographic_frame Samples.biometric_frame
              (mkEnrolment (Some (Dates.mkDate 2024 3 1)) (Some "X") (Some "A") 1 2 3)
              [ mkEnrolment (Some (Dates.mkDate 2024 1 15)) (Some "Y") (Some "B") 4 5 6;
                mkEnrolment (Some (Dates.mkDate 2024 3 1)) (Some "X") (Some "C") 7 8 9 ]
              (Table Samples.demographic_rows) (Table Samples.biometric_rows)
              (mkOverview 45 7 (overall_coverage 7 45) 1 2)
              stable_sort_states_sorts eq_refl eq_refl eq_refl eq_refl) as [_ H].
  split; [reflexivity|]. split; [reflexivity|].
  apply H. intros r [<-|[<-|[<-|[]]]]; discriminate.
Defined.

(** *** The drill-down *)

Lemma rows_of_selected_state (s : string) (rows : list Enrolment) :
  rows_of_key String.compare state s rows = filter (Backend.state_is s) rows.
Proof. apply BackendFacts.rows_of_state. Qed.

(** On a loaded enrolment frame whose count columns are [int64], the
    drill-down adds up to the bar of its state: when every row of the
    selected state names a district, the district totals sum to the
    total of that state in the state chart. *)
Theorem drill_down_adds_up (sort_states : list (string * Z) -> list (string * Z))
    (enr : Loader.frame) (rows : list Enrolment) (s : string) (v : Z) :
  sorts_states sort_states ->
  Data.enrolment enr = Some (Table rows) ->
  In (s, v) (state_agg sort_states rows) ->
  (forall r, In r rows -> state r = Some s -> district r <> None) ->
  Int64.sum (map snd (district_agg s rows)) = v.
Proof.
  intros Hsort _ Hin Hall. unfold state_agg in Hin.
  destruct (Hsort (group_sum String.compare state total_enrolment rows)) as [Hperm _].
  apply (Permutation_in _ (Permutation_sym Hperm)) in Hin.
  unfold group_sum in Hin.
  apply (GroupByMore.In_aggregate String.compare state
           (fun g => Int64.sum (map total_enrolment g)) rows s v) in Hin as [_ ->].
  rewrite rows_of_selected_state. unfold district_agg. rewrite group_sum_total.
  rewrite keyed_all; [reflexivity|].
  intros r Hr. apply filter_In in Hr as [Hr Hs]. apply (Hall r Hr).
  unfold Backend.state_is in Hs. destruct (state r) as [s'|]; [|discriminate].
  apply String.eqb_eq in Hs. now subst.
Qed.

Lemma drill_down_adds_up_witness :
  In ("X", 30%Z) (state_agg stable_sort_states Samples.enrolment_rows) /\
  Int64.sum (map snd (district_agg "X" Samples.enrolment_rows)) = 30%Z.
Proof.
  assert (Hin : In ("X", 30%Z) (state_agg stable_sort_states Samples.enrolment_rows))
    by (simpl; left; reflexivity).
  split; [exact Hin|].
  apply (drill_down_adds_up stable_sort_states Samples.enrolment_frame _ "X" 30
           stable_sort_states_sorts eq_refl Hin).
  intros r [<-|[<-|[<-|[]]]] _; discriminate.
Defined.

(** *** The coverage table *)

Lemma matches_of_key (k : string) (bio_agg : list (string * Z)) :
  NoDup (map fst bio_agg) ->
  map (fun _ : string * Z => k) (filter (fun b => String.eqb (fst b) k) bio_agg) =
  if existsb (String.eqb k) (map fst bio_agg) then [k] else [].
Proof.
  induction bio_agg as [|[k' v] bio_agg IH]; simpl; [reflexivity|].
  intros Hnd. apply NoDup_cons_iff in Hnd as [Hout Hnd]. specialize (IH Hnd).
  rewrite (String.eqb_sym k k').
  destruct (String.eqb_spec k' k) as [->|Hne]; simpl; [|exact IH].
  f_equal. rewrite IH.
  destruct (existsb (String.eqb k) (map fst bio_agg)) eqn:E; [|reflexivity].
  exfalso. apply existsb_exists in E as [x [Hx E]]. apply String.eqb_eq in E. now subst.
Qed.

Lemma merge_inner_states (enr_agg bio_agg : list (string * Z)) :
  NoDup (map fst bio_agg) ->
  map (fun m => fst (fst m)) (merge_inner enr_agg bio_agg) =
  filter (fun k => existsb (String.eqb k) (map fst bio_agg)) (map fst enr_agg).
Proof.
  intros Hnd. unfold merge_inner.
  induction enr_agg as [|[k v] enr_agg IH]; simpl; [reflexivity|].
  rewrite map_app, IH, map_map. simpl.
  rewrite (matches_of_key k bio_agg Hnd).
  now destruct (existsb (String.eqb k) (map fst bio_agg)).
Qed.

Lemma group_sum_keys {R : Type} (key : R -> option string) (col : R -> Z) (rows : list R) :
  NoDup (map fst (group_sum String.compare key col rows)) /\
  forall k, In k (map fst (group_sum String.compare key col rows)) <->
            In (Some k) (map key rows).
Proof.
  unfold group_sum. rewrite map_map. simpl.
  destruct (GroupByMore.groupby_structure String.compare key rows) as [Ha [_ Hk]].
  split; [exact (GroupByFacts.ascending_NoDup String.compare _ Ha) | exact Hk].
Qed.

(** On loaded frames whose count columns are [int64], the coverage
    table has one row for every state that occurs in both datasets and no
    other row; the totals of a row are the sums over the
    rows of its state in the two datasets, and the pending figure is
    their difference, negative when there are more captures than
    enrolments. *)
Theorem coverage_rows_are_common_states (df_enr df_bio : Loader.frame)
    (e0 : Enrolment) (enr : list Enrolment)
    (b0 : Biometric) (bio : list Biometric) (out : list CoverageRow) :
  Data.enrolment df_enr = Some (Table (e0 :: enr)) ->
  Data.biometric df_bio = Some (Table (b0 :: bio)) ->
  biometric_performance (Table (e0 :: enr)) (Table (b0 :: bio)) = Ok (Some out) ->
  NoDup (map cov_state out) /\
  (forall s, In s (map cov_state out) <->
             In (Some s) (map state (e0 :: enr)) /\ In (Some s) (map bio_state (b0 :: bio))) /\
  (forall r, In r out ->
     enrolment_total r =
       Int64.sum (map total_enrolment (rows_of_key String.compare state (cov_state r) (e0 :: enr))) /\
     biometric_total r =
       Int64.sum (map total_biometric
                    (rows_of_key String.compare bio_state (cov_state r) (b0 :: bio))) /\
     pending_biometrics r = Int64.sub (enrolment_total r) (biometric_total r) /\
     (Int64.in_range (enrolment_total r - biometric_total r) ->
      pending_biometrics r = (enrolment_total r - biometric_total r)%Z)).
Proof.
  unfold biometric_performance. cbn [empty negb andb rows_by column bind]. rewrite !map_id.
  intros _ _ H.
  assert (Hout : out = pendingAndCoverage
                   (group_sum String.compare state total_enrolment (e0 :: enr))
                   (group_sum String.compare bio_state total_biometric (b0 :: bio)))
    by congruence.
  clear H.
  destruct (group_sum_keys state total_enrolment (e0 :: enr)) as [Hnd_e Hk_e].
  destruct (group_sum_keys bio_state total_biometric (b0 :: bio)) as [Hnd_b Hk_b].
  assert (Hstates : map cov_state out =
            filter (fun k => existsb (String.eqb k)
                       (map fst (group_sum String.compare bio_state total_biometric (b0 :: bio))))
                   (map fst (group_sum String.compare state total_enrolment (e0 :: enr)))).
  { rewrite Hout. unfold pendingAndCoverage. rewrite map_map. cbn [cov_state coverage_row].
    now apply merge_inner_states. }
  split; [|split].
  - rewrite Hstates. now apply NoDup_filter.
  - intros s. rewrite Hstates, filter_In, Hk_e. rewrite existsb_exists.
    split.
    + intros [He [x [Hx E]]]. apply String.eqb_eq in E. subst x. split; [exact He|].
      now apply Hk_b.
    + intros [He Hb]. split; [exact He|]. exists s. split; [now apply Hk_b|].
      apply String.eqb_refl.
  - intros r Hr. rewrite Hout in Hr. unfold pendingAndCoverage in Hr.
    apply in_map_iff in Hr as [[[s e] b] [<- Hm]].
    cbn [fst snd coverage_row cov_state enrolment_total biometric_total pending_biometrics].
    apply In_merge_inner in Hm as [He Hb].
    unfold group_sum in He, Hb.
    apply (GroupByMore.In_aggregate String.compare state
             (fun g => Int64.sum (map total_enrolment g)) (e0 :: enr) s e) in He as [_ ->].
    apply (GroupByMore.In_aggregate String.compare bio_state
             (fun g => Int64.sum (map total_biometric g)) (b0 :: bio) s b) in Hb as [_ ->].
    split; [reflexivity|]. split; [reflexivity|]. split; [reflexivity|].
    intros Hrange. unfold Int64.sub. now apply Int64Facts.wrap_small.
Qed.

Lemma coverage_rows_are_common_states_witness :
  biometric_performance (Table Samples.enrolment_rows) (Table Samples.biometric_rows) =
    Ok (Some [ coverage_row "X" 30 5 ]) /\
  In (Some "X") (map state Samples.enrolment_rows) /\
  In (Some "X") (map bio_state Samples.biometric_rows).
Proof.
  destruct (coverage_rows_are_common_states
              Samples.enrolment_frame Samples.biometric_frame
              (mkEnrolment (Some (Dates.mkDate 2024 3 1)) (Some "X") (Some "A") 1 2 3)
              [ mkEnrolment (Some (Dates.mkDate 2024 1 15)) (Some "Y") (Some "B") 4 5 6;
                mkEnrolment (Some (Dates.mkDate 2024 3 1)) (Some "X") (Some "C") 7 8 9 ]
              (mkBiometric (Some "X") 2 3) [ mkBiometric (Some "Z") 1 1 ]
              [ coverage_row "X" 30 5 ] eq_refl eq_refl eq_refl) as [_ [H _]].
  split; [reflexivity|].
  apply (H "X"). left. reflexivity.
Defined.

(** *** The leaderboard *)

(** The leaderboard shows the ten states with the largest totals, all
    states when there are at most ten: it and the states left out make up
    the state totals, it is in descending order of total, no state left
    out has a larger total than a state shown, and no state is shown
    twice. *)
Theorem leaderboard_top (sort_states : list (string * Z) -> list (string * Z))
    (rows : list Enrolment) :
  sorts_states sort_states ->
  exists rest,
    Permutation (group_sum String.compare state total_enrolment rows)
                (leaderboard sort_states rows ++ rest) /\
    Sorted (fun a b => (snd b <= snd a)%Z) (leaderboard sort_states rows) /\
    List.length (leaderboard sort_states rows) =
      Nat.min 10 (List.length (group_sum String.compare state total_enrolment rows)) /\
    (forall a b, In a (leaderboard sort_states rows) -> In b rest -> (snd b <= snd a)%Z) /\
    NoDup (map fst (leaderboard sort_states rows)).
Proof.
  intros Hsort. unfold leaderboard, state_agg.
  set (totals := group_sum String.compare state total_enrolment rows).
  destruct (Hsort totals) as [Hperm Hsorted].
  exists (skipn 10 (sort_states totals)).
  assert (Htrans : RelationClasses.Transitive (fun a b : string * Z => (snd b <= snd a)%Z))
    by (intros a b c Hab Hbc; lia).
  apply (Sorted_StronglySorted Htrans) in Hsorted.
  rewrite <- (firstn_skipn 10 (sort_states totals)) in Hsorted.
  apply StronglySorted_app_inv in Hsorted as [Hfirst Hcross].
  split; [now rewrite firstn_skipn|].
  split; [now apply StronglySorted_Sorted|]. split; [|split].
  - rewrite length_firstn. now rewrite (Permutation_length Hperm).
  - exact Hcross.
  - rewrite <- firstn_map. apply QueryFacts.NoDup_firstn.
    apply (Permutation_NoDup (Permutation_map fst Hperm)).
    exact (proj1 (group_sum_keys state total_enrolment rows)).
Qed.

Lemma leaderboard_top_witness :
  exists rest,
    Permutation
      (group_sum String.compare state total_enrolment
         [ mkEnrolment None (Some "X") None 1 2 3;
           mkEnrolment None (Some "Y") None 4 5 6 ])
      (leaderboard stable_sort_states
         [ mkEnrolment None (Some "X") None 1 2 3;
           mkEnrolment None (Some "Y") None 4 5 6 ] ++ rest).
Proof.
  destruct (leaderboard_top stable_sort_states
              [ mkEnrolment None (Some "X") None 1 2 3;
                mkEnrolment None (Some "Y") None 4 5 6 ]
              stable_sort_states_sorts) as [rest [H _]].
  exists rest. exact H.
Defined.

End PagesFacts.

(** ** The loader of [app.py] against the loader of [backend.py] *)

Module AppFacts.

Import Normalizer Loader App.

Lemma find_none {A : Type} (f : A -> bool) (l : list A) :
  Forall (fun x => f x = false) l -> find f l = None.
Proof. induction 1 as [|x l Hx Hl IH]; simpl; [reflexivity | now rewrite Hx]. Qed.

Lemma load_file_plain (f : file) : plain f -> load_file f = read_csv f.
Proof.
  destruct f as [|header body]; [reflexivity|]. unfold plain. intros H.
  unfold load_file, read_csv, bind, normalize. cbn [columns rows].
  assert (Hclean : map clean_name header = header).
  { rewrite <- (map_id header) at 2. apply map_ext_in. intros c Hc.
    rewrite Forall_forall in H. now apply H. }
  rewrite Hclean. unfold date_col. rewrite find_none; [reflexivity|].
  revert H. apply Forall_impl. now intros c [_ Hc].
Qed.

Lemma read_all_plain (files : list file) :
  Forall plain files -> read_all files = raw_frames files.
Proof.
  induction 1 as [|f files Hf Hfs IH]; simpl; [reflexivity|].
  rewrite (load_file_plain f Hf), IH. reflexivity.
Qed.

Lemma raw_frames_labels (files : list file) (g : frame) (c : string) :
  Forall plain files -> In g (raw_frames files) -> In c (columns g) -> clean_name c = c.
Proof.
  induction 1 as [|f files Hf Hfs IH]; simpl; [tauto|].
  destruct f as [|header body]; simpl; [exact IH|].
  intros [<-|Hg] Hc; [|now apply IH].
  simpl in Hc. unfold plain in Hf. rewrite Forall_forall in Hf. now apply Hf.
Qed.

Lemma clean_columns_fixed (df : frame) :
  (forall c, In c (columns df) -> clean_name c = c) -> clean_columns df = df.
Proof.
  intros H. unfold clean_columns. destruct (is_empty_frame df); [reflexivity|].
  destruct df as [cols dts rs]. simpl in *. f_equal.
  rewrite <- (map_id cols) at 2. now apply map_ext_in.
Qed.

(** On a folder whose files have clean labels and no date column, and
    that holds a file directly or none at all, the loader of the small
    dashboard gives what the loader of the service gives. *)
Theorem app_load_agrees (d : folder) :
  (direct d = [] -> nested d = []) ->
  Forall plain (direct d) ->
  load_data d = load_df_from_folder d.
Proof.
  intros Hnested Hplain.
  assert (Hd : discover d = direct d).
  { unfold discover. destruct (direct d); [now apply Hnested | reflexivity]. }
  unfold load_data, read_folder, load_df_from_folder.
  rewrite Hd, (read_all_plain _ Hplain).
  destruct (raw_frames (direct d)) as [|g0 good] eqn:E; [reflexivity|].
  unfold concat_frames, bind.
  destruct (align_all (combine (combined_columns (g0 :: good))
                               (combined_dtypes (g0 :: good))) (g0 :: good)) as [rs|e];
    [|reflexivity].
  f_equal. apply clean_columns_fixed. cbn [columns]. intros c Hc.
  apply LoaderFacts.combined_columns_from in Hc as [g [Hg Hc]].
  rewrite <- E in Hg. exact (raw_frames_labels _ g c Hplain Hg Hc).
Qed.

Lemma app_load_agrees_witness :
  load_data (mkFolder [Csv ["state"; "age_0_5"] [[CStr "X"; CInt 1]]; Unreadable] []) =
  load_df_from_folder (mkFolder [Csv ["state"; "age_0_5"] [[CStr "X"; CInt 1]]; Unreadable] []).
Proof.
  apply app_load_agrees.
  - discriminate.
  - simpl. repeat constructor.
Defined.

End AppFacts.
